(** * Voice-command classifier: model of the audio-to-decision pipeline

    A shallow embedding of the TypeScript sources
      - [src/main.ts]    realtime loop: RMS energy, hysteretic gate, vote
                         history, majority, one command per utterance;
      - [src/mfcc.ts]    frame-size choice and the feature extractor;
      - the worker       z-score scaler, one-hot labels, request protocol.

    JavaScript numbers are modelled by the real numbers [R]: rounding, NaN
    and the infinities are outside the model (the one place where the source
    starts from [-Infinity], [argmax], carries it as [None]).  Array indices,
    lengths and 32-bit integers are [nat] and [Z]. *)

From Stdlib Require Import Reals Lra Lia ZArith List Bool Arith Psatz.
From Stdlib Require String.
Import ListNotations String.StringSyntax.

Set Implicit Arguments.

(* ================================================================== *)
(** * Part I - the model *)
(* ================================================================== *)

(** ** JavaScript primitives used by the sources *)
Module JS.

Local Open Scope R_scope.

(** [x >= y], [x > y], [x < y] on numbers, as booleans. *)
Definition geb (x y : R) : bool := if Rge_dec x y then true else false.
Definition gtb (x y : R) : bool := if Rgt_dec x y then true else false.
Definition ltb (x y : R) : bool := if Rlt_dec x y then true else false.

(** [v || d] on numbers: [d] replaces a falsy [v], that is [0]. *)
Definition orElse (v d : R) : R := if Req_dec_T v 0 then d else v.

(** [Math.floor] and [Math.ceil], to integers. *)
Definition Math_floor (x : R) : Z := Int_part x.
Definition Math_ceil (x : R) : Z := (- Int_part (- x))%Z.

(** [Math.log2]. *)
Definition Math_log2 (x : R) : R := ln x / ln 2.

(** [new Array(n).fill(v)] and [new Float32Array(n)]. *)
Definition filled (n : nat) (v : R) : list R := repeat v n.
Definition zeros (n : nat) : list R := repeat 0 n.

(** [a.subarray(b, e)] for [0 <= b]: both ends are clamped to the length. *)
Definition subarray (A : Type) (a : list A) (b e : nat) : list A :=
  firstn (e - b) (skipn b a).

(** [a[i] = v] on an array: an index below the length overwrites, the
    index equal to the length appends, a larger one leaves holes (filled
    here with [hole]; no call site of the model reaches that case). *)
Fixpoint array_set (A : Type) (hole : A) (a : list A) (i : nat) (v : A) : list A :=
  match a, i with
  | [], O => [v]
  | [], S i' => hole :: array_set hole [] i' v
  | _ :: a', O => v :: a'
  | x :: a', S i' => x :: array_set hole a' i' v
  end.

(** ToInt32 of an integer: wrap into [-2^31, 2^31). *)
Definition toInt32 (z : Z) : Z := ((z + 2147483648) mod 4294967296 - 2147483648)%Z.

(** [a << n] where [n] is the integer part of the right operand: the shift
    count is taken modulo 32 and the result is a 32-bit integer. *)
Definition shl (a n : Z) : Z := toInt32 (Z.shiftl (toInt32 a) (Z.land n 31)).

(** [a & b] on 32-bit integers. *)
Definition band (a b : Z) : Z := Z.land (toInt32 a) (toInt32 b).

End JS.

(** ** [src/main.ts]: the realtime loop *)
Module Main.

Import JS.
Local Open Scope R_scope.

(** Config knobs. *)
Definition VAD_ENTER : R := 0.005.
Definition VAD_EXIT : R := 0.003.
Definition CONF_THRESHOLD : R := 0.40.
Definition PRED_WINDOW : nat := 5.

Inductive Label : Type := LEFT | RIGHT.

(** [rms]: the loop accumulates [s += v * v] from [s = 0]. *)
Definition rms (x : list R) : R :=
  let s := fold_left (fun s v => s + v * v) x 0 in
  sqrt (s / Rmax 1 (INR (length x))).

(** [argmax]: [bv] starts at [-Infinity], carried as [None]; every number
    is greater than it. *)
Definition above (x : R) (bv : option R) : bool :=
  match bv with
  | None => true
  | Some b => gtb x b
  end.

Fixpoint argmax_from (v : list R) (i bi : Z) (bv : option R) : Z * option R :=
  match v with
  | [] => (bi, bv)
  | x :: v' =>
      if above x bv then argmax_from v' (i + 1)%Z i (Some x)
      else argmax_from v' (i + 1)%Z bi bv
  end.

Definition argmax (v : list R) : Z * option R := argmax_from v 0%Z 0%Z None.

(** [val >= CONF_THRESHOLD], false for [-Infinity]. *)
Definition confident (val : option R) : bool :=
  match val with
  | None => false
  | Some x => geb x CONF_THRESHOLD
  end.

(** [pushPred]: push, then shift the oldest out when over [PRED_WINDOW]. *)
Definition pushPred (lastPreds : list Z) (idx : Z) : list Z :=
  let l := lastPreds ++ [idx] in
  if (PRED_WINDOW <? length l)%nat then tl l else l.

(** The [Map<number, number>] of [majority]: entries in insertion order;
    [set] on a present key keeps its place. *)
Definition CountMap : Type := list (Z * Z).

Fixpoint map_get (m : CountMap) (k : Z) : option Z :=
  match m with
  | [] => None
  | (k', c) :: m' => if (k' =? k)%Z then Some c else map_get m' k
  end.

Fixpoint map_set (m : CountMap) (k c : Z) : CountMap :=
  match m with
  | [] => [(k, c)]
  | (k', c') :: m' =>
      if (k' =? k)%Z then (k, c) :: m' else (k', c') :: map_set m' k c
  end.

(** The keys of the map, in insertion order. *)
Definition keys (m : CountMap) : list Z := map fst m.

(** [counts.get(i) || 0]. *)
Definition get_or_zero (m : CountMap) (k : Z) : Z :=
  match map_get m k with
  | None => 0%Z
  | Some c => c
  end.

Definition tally (lastPreds : list Z) : CountMap :=
  fold_left (fun counts i => map_set counts i (get_or_zero counts i + 1)%Z)
            lastPreds [].

(** [counts.forEach((c, k) => { if (c > bestC) { bestC = c; best = k; } })]
    on the pair [(best, bestC)]. *)
Definition pick (acc : Z * Z) (entry : Z * Z) : Z * Z :=
  let '(best, bestC) := acc in
  let '(k, c) := entry in
  if (c >? bestC)%Z then (k, c) else (best, bestC).

Definition majority (lastPreds : list Z) : option Z :=
  match lastPreds with
  | [] => None
  | _ => Some (fst (fold_left pick (tally lastPreds) ((-1)%Z, (-1)%Z)))
  end.

(** Module state of the loop. [worker] tells whether the worker exists. *)
Record Loop : Type := mkLoop {
  worker : bool;
  lastPreds : list Z;
  inSpeech : bool;
  lastStable : option Label;
  utteranceFired : bool
}.

(** [resetVotes] (the writes to the page are not modelled). *)
Definition resetVotes (st : Loop) : Loop :=
  mkLoop (worker st) [] (inSpeech st) (lastStable st) false.

Definition set_inSpeech (b : bool) (st : Loop) : Loop :=
  mkLoop (worker st) (lastPreds st) b (lastStable st) (utteranceFired st).


(** What a tick reads from outside the loop: the capture buffer at the
    tick, the vector [extractFeaturesMonoFloat32] resolves with, and how
    the [predict] call to the worker settles. *)
Inductive Reply : Type :=
| Rejected
| Resolved (y : option (list R)).

Record Tick : Type := mkTick {
  captureBuf : list (list R);
  feats : list R;
  reply : Reply
}.

(** What a tick does that is seen from outside: whether it called
    [resetVotes] (a Silence->Speech edge), and the ['voice-command'] event
    it dispatched, if any. *)
Record TickOut : Type := mkOut {
  speechStart : bool;
  command : option Label
}.

Definition takeCapturedMono (buf : list (list R)) : list R := concat buf.

Definition labelOf (idx : Z) : Label := if (idx =? 0)%Z then LEFT else RIGHT.

(** [feats[i] !== 0] for some [i]. *)
Definition nonZero (v : list R) : bool :=
  existsb (fun x => if Req_dec_T x 0 then false else true) v.

(** What a sequence of steps shows, one after the other. *)
Fixpoint trace (I : Type) (step : Loop -> I -> Loop * TickOut)
         (st : Loop) (inputs : list I) : list TickOut :=
  match inputs with
  | [] => []
  | i :: rest => snd (step st i) :: trace step (fst (step st i)) rest
  end.

Section Loop.

(** [REQUIRE_VAD] is a constant [true] of the source; it is a variable
    here so that the gate can be stated with gating disabled. *)
Variable REQUIRE_VAD : bool.
Variable sampleRate : R.

(** The last ~0.8 s of audio. *)
Definition lastWindow (mono : list R) : list R :=
  let framesNeeded := Math_ceil (0.8 * sampleRate) in
  let len := Z.of_nat (length mono) in
  if (len >? framesNeeded)%Z
  then subarray mono (Z.to_nat (len - framesNeeded)) (length mono)
  else mono.

(** Hysteretic VAD. *)
Definition speechNow (inSp : bool) (e : R) : bool :=
  negb REQUIRE_VAD || (if inSp then geb e VAD_EXIT else geb e VAD_ENTER).

(** The tick after the gate, with [inSpeech] true: zero-feature guard,
    the worker's reply, normalisation, vote, fire once. *)
Definition decide (st : Loop) (t : Tick) : Loop * option Label :=
  if negb (nonZero (feats t)) then (st, None) else
  match reply t with
  | Rejected => (st, None)
  | Resolved None => (st, None)
  | Resolved (Some y) =>
      if (length y <? 2)%nat then (st, None) else
      let sum := fold_left Rplus y 0 in
      let probs := if gtb sum 1e-6 then map (fun v => v / sum) y else y in
      let '(idx, val) := argmax probs in
      let preds := if confident val then pushPred (lastPreds st) idx
                   else lastPreds st in
      let st1 := mkLoop (worker st) preds (inSpeech st) (lastStable st)
                        (utteranceFired st) in
      match majority preds with
      | Some maj =>
          let label := labelOf maj in
          if negb (utteranceFired st1) && confident val
          then (mkLoop (worker st1) preds (inSpeech st1) (Some label) true,
                Some label)
          else (st1, None)
      | None => (st1, None)
      end
  end.

(** The tick up to its first [await]: the gate.  [started] tells that
    [resetVotes] was called (a Silence->Speech edge), [go] that the tick
    goes on to the features and the prediction. *)
Record Gated : Type := mkGated {
  after : Loop;
  started : bool;
  go : bool
}.

Definition gate (st : Loop) (t : Tick) : Gated :=
  let slice := lastWindow (takeCapturedMono (captureBuf t)) in
  let e := rms slice in
  let now := speechNow (inSpeech st) e in
  if negb (inSpeech st) && now then
    mkGated (resetVotes (set_inSpeech true st)) true true
  else if inSpeech st && negb now then
    mkGated (set_inSpeech false st) false false
  else if negb (inSpeech st) then
    mkGated st false false
  else
    mkGated st false true.

Definition livePredictTick (st : Loop) (t : Tick) : Loop * TickOut :=
  if negb (worker st) then (st, mkOut false None) else
  let g := gate st t in
  if go g then
    let '(st', ev) := decide (after g) t in
    (st', mkOut (started g) ev)
  else (after g, mkOut (started g) None).

(** When the worker answers late the timer fires again while a tick still
    waits for its reply, and the parts of the ticks interleave: a part is
    the gate of a tick, or the continuation of an earlier tick on its
    reply, run on the state as it is by then. *)
Inductive Part : Type :=
| GatePart (t : Tick)
| ReplyPart (t : Tick).

Definition part (st : Loop) (p : Part) : Loop * TickOut :=
  match p with
  | GatePart t =>
      if negb (worker st) then (st, mkOut false None) else
      let g := gate st t in
      (after g, mkOut (started g) None)
  | ReplyPart t =>
      let '(st', ev) := decide st t in
      (st', mkOut false ev)
  end.

(** The timer: ticks run one after the other. *)
Definition run (st : Loop) (ticks : list Tick) : list TickOut :=
  trace livePredictTick st ticks.

(** Parts of ticks in any order. *)
Definition runParts (st : Loop) (parts : list Part) : list TickOut :=
  trace part st parts.

End Loop.

(** Number of ['voice-command'] events in a stretch of ticks. *)
Definition commands (os : list TickOut) : nat :=
  length (filter (fun o => match command o with Some _ => true | None => false end) os).

(** Number of Silence->Speech edges in a stretch of ticks. *)
Definition onsets (os : list TickOut) : nat :=
  length (filter speechStart os).


End Main.

(** ** Results of code that may throw *)
Module Exn.

(** A call returns a value or throws an [Error] with a message. *)
Inductive Outcome (A : Type) : Type :=
| Returned (a : A)
| Thrown (msg : String.string).

Arguments Returned {A} a.
Arguments Thrown {A} msg.

Definition bind (A B : Type) (c : Outcome A) (k : A -> Outcome B) : Outcome B :=
  match c with
  | Returned a => k a
  | Thrown msg => Thrown msg
  end.

End Exn.

(** ** Loops over a matrix, shared by the extractor and the scaler *)
Module Loops.

Local Open Scope R_scope.

(** [for (t...) for (d = 0; d < D; d++) acc[d] += g(d, rows[t][d])] from
    [acc = new Array(D).fill(0)].  Rows are read at [d < D] only; the
    model reads [0] where a shorter row has no entry. *)
Definition addRow (D : nat) (g : nat -> R -> R) (acc row : list R) : list R :=
  map (fun d => nth d acc 0 + g d (nth d row 0)) (seq 0 D).

Definition sumRows (D : nat) (g : nat -> R -> R) (rows : list (list R)) : list R :=
  fold_left (addRow D g) rows (JS.zeros D).

(** [for (d...) acc[d] /= n]. *)
Definition divEach (acc : list R) (n : nat) : list R :=
  map (fun s => s / INR n) acc.

(** [Math.max(1, n - 1)] on a length. *)
Definition bessel (n : nat) : R := Rmax 1 (INR n - 1).

End Loops.

(** ** [src/mfcc.ts]: frame size and feature extraction *)
Module Mfcc.

Import JS Exn Loops.
Local Open Scope string_scope.
Local Open Scope R_scope.

(** [MFCCOptions]: every field may be left undefined. *)
Record MFCCOptions : Type := mkOpts {
  trimThreshold : option R;
  allowUntrimFallback : option bool;
  padToFrame : option bool
}.

Definition default (A : Type) (o : option A) (d : A) : A :=
  match o with
  | Some a => a
  | None => d
  end.

Definition isPowerOfTwo (n : Z) : bool :=
  (n >? 0)%Z && (band n (n - 1) =? 0)%Z.

Definition pickFrameSize (sampleRate : R) : Z :=
  let target := Rmax 1 (IZR (Math_floor (0.025 * sampleRate))) in
  let lowerPow := shl 1 (Math_floor (Math_log2 target)) in
  let upperPow := shl 1 (Math_ceil (Math_log2 target)) in
  let chosen :=
    if ltb (Rabs (IZR upperPow - target)) (Rabs (IZR lowerPow - target))
    then upperPow else lowerPow in
  let chosen := if (chosen <? 256)%Z then 256%Z else chosen in
  let chosen := if (chosen >? 4096)%Z then 4096%Z else chosen in
  chosen.

(** The two clamps at the end of [pickFrameSize], and the sizes they
    can leave. *)
Definition clamped (c : Z) : Z :=
  let c := if (c <? 256)%Z then 256%Z else c in
  if (c >? 4096)%Z then 4096%Z else c.

Definition frameSizes : list Z := [256; 512; 1024; 2048; 4096]%Z.

Definition normalize (x : list R) : list R :=
  let max := fold_left (fun m v => Rmax m (Rabs v)) x 1e-9 in
  if ltb max 1e-6 then x else map (fun v => v / max) x.

(** [while (s < x.length && Math.abs(x[s]) < thr) s++] from [s = 0]. *)
Fixpoint scanStart (thr : R) (x : list R) : nat :=
  match x with
  | [] => O
  | v :: x' => if ltb (Rabs v) thr then S (scanStart thr x') else O
  end.

(** [while (e > s && Math.abs(x[e]) < thr) e--], on [e1 = e + 1] so that
    the start value [x.length - 1] of an empty array needs no negative
    number; the result is [e + 1], the end of the slice. *)
Fixpoint scanEnd (thr : R) (x : list R) (s e1 : nat) : nat :=
  match e1 with
  | O => O
  | S e =>
      if (s <? e)%nat && ltb (Rabs (nth e x 0)) thr
      then scanEnd thr x s e else e1
  end.

Definition trimSilence (x : list R) (thr : R) : list R :=
  let s := scanStart thr x in
  let e1 := scanEnd thr x s (length x) in
  subarray x s e1.

Section Extract.

(** [Meyda.extract('mfcc', frame, {sampleRate, bufferSize, melBands: 26,
    numberOfMFCCCoefficients: 13, windowingFunction: 'hamming'})], the
    black box: [None] when the call throws or returns no array. *)
Variable meyda : R -> Z -> list R -> option (list R).

(** The contract of the black box: asked for 13 coefficients, it gives
    13 when it gives any. *)
Definition thirteen : Prop :=
  forall (sr : R) (fs : Z) (frame mf : list R),
    meyda sr fs frame = Some mf -> mf <> [] -> length mf = 13%nat.

(** No frame of a call yields coefficients. *)
Definition noCoefficients (sr : R) (fs : Z) : Prop :=
  forall frame : list R,
    meyda sr fs frame = None \/ meyda sr fs frame = Some [].

(** One [try { ... if (Array.isArray(mf) && mf.length > 0) mfccs.push(mf) }
    catch {}]. *)
Definition collect (sampleRate : R) (frameSize : Z) (frame : list R)
           (mfccs : list (list R)) : list (list R) :=
  match meyda sampleRate frameSize frame with
  | Some mf => if (0 <? length mf)%nat then mfccs ++ [mf] else mfccs
  | None => mfccs
  end.

(** Iterations the frame loop still needs from index [i]. *)
Definition need (len : nat) (i : Z) : nat :=
  Z.to_nat (Z.of_nat len + 1 - i).

(** [for (let i = 0; i + frameSize <= sig.length; i += hop)]: [fuel]
    bounds the number of iterations, [None] when it does not suffice. *)
Fixpoint slide (fuel : nat) (sampleRate : R) (frameSize : Z) (hop : Z)
         (sig : list R) (i : Z) (mfccs : list (list R))
  : option (list (list R)) :=
  if (i + frameSize <=? Z.of_nat (length sig))%Z then
    match fuel with
    | O => None
    | S fuel' =>
        let frame := subarray sig (Z.to_nat i) (Z.to_nat (i + frameSize)) in
        slide fuel' sampleRate frameSize hop sig (i + hop)%Z
              (collect sampleRate frameSize frame mfccs)
    end
  else Some mfccs.

(** Step 8: mean and standard deviation across the collected frames. *)
Definition aggregate (mfccs : list (list R)) : list R :=
  let T := length mfccs in
  let D := length (hd [] mfccs) in
  let means := divEach (sumRows D (fun _ v => v) mfccs) T in
  let stds :=
    map (fun s => sqrt (s / bessel T))
        (sumRows D (fun d v => (v - nth d means 0) * (v - nth d means 0)) mfccs) in
  means ++ stds.

(** From the final signal on: the zero vector when no frame can be
    made, the power-of-two check, the frames (steps 5 to 7) and the
    aggregate. *)
Definition framesToFeatures (fuel : nat) (sampleRate : R) (frameSize : Z)
           (sig : list R) : option (Outcome (list R)) :=
  let hop := (frameSize / 2)%Z in
  if (Z.of_nat (length sig) <? frameSize)%Z then Some (Returned (zeros 26)) else
  if negb (isPowerOfTwo frameSize) then
    Some (Thrown "Internal error: non-power-of-two frame size selected")
  else
    match slide fuel sampleRate frameSize hop sig 0%Z [] with
    | None => None
    | Some mfccs =>
        let mfccs :=
          match mfccs with
          | [] =>
              let frame :=
                subarray sig (Z.to_nat (Z.of_nat (length sig) - frameSize))
                         (length sig) in
              collect sampleRate frameSize frame []
          | _ => mfccs
          end in
        match mfccs with
        | [] => Some (Returned (zeros 26))
        | mf0 :: _ =>
            if (length mf0 =? 0)%nat then Some (Returned (zeros 26))
            else Some (Returned (aggregate mfccs))
        end
    end.

Definition extractFeaturesMonoFloat32 (fuel : nat) (float32 : list R)
           (sampleRate : R) (opts : MFCCOptions)
  : option (Outcome (list R)) :=
  let trimThreshold := default (trimThreshold opts) 0.003 in
  let allowUntrimFallback := default (allowUntrimFallback opts) true in
  let padToFrame := default (padToFrame opts) true in
  let norm := normalize float32 in
  let sig := trimSilence norm trimThreshold in
  let frameSize := pickFrameSize sampleRate in
  let short (s : list R) := (Z.of_nat (length s) <? frameSize)%Z in
  let sig := if short sig && allowUntrimFallback then norm else sig in
  let sig :=
    if short sig && padToFrame then
      let copyLen := Z.min (Z.of_nat (length sig)) frameSize in
      zeros (Z.to_nat (frameSize - copyLen))
        ++ subarray sig (Z.to_nat (Z.of_nat (length sig) - copyLen)) (length sig)
    else sig in
  framesToFeatures fuel sampleRate frameSize sig.

End Extract.

End Mfcc.

(** ** The worker: scaler, labels, and the request protocol *)
Module Worker.

Import JS Exn Loops.
Local Open Scope string_scope.
Local Open Scope R_scope.

(** *** z-score scaler *)
Record Scaler : Type := mkScaler {
  mu : list R;
  sigma : list R
}.

(** [fitScaler]: [X[0].length] throws on an empty [X]. *)
Definition fitScaler (X : list (list R)) : Outcome Scaler :=
  match X with
  | [] => Thrown "Cannot read properties of undefined (reading 'length')"
  | x0 :: _ =>
      let n := length X in
      let d := length x0 in
      let mu := divEach (sumRows d (fun _ v => v) X) n in
      let sd := sumRows d (fun j v => (v - nth j mu 0) * (v - nth j mu 0)) X in
      let sd := map (fun s => orElse (sqrt (s / bessel n)) 1e-6) sd in
      Returned (mkScaler mu sd)
  end.

Definition transformOne (x : list R) (sc : Scaler) : list R :=
  map (fun j => (nth j x 0 - nth j (mu sc) 0) / orElse (nth j (sigma sc) 0) 1e-6)
      (seq 0 (length x)).

Definition transformX (X : list (list R)) (sc : Scaler) : list (list R) :=
  map (fun r => transformOne r sc) X.

(** *** labels: class indices, or rows that are one-hot already *)
Inductive Labels : Type :=
| Indices (labs : list Z)
| Rows (rows : list (list R)).

Definition labelCount (y : Labels) : nat :=
  match y with
  | Indices labs => length labs
  | Rows rows => length rows
  end.

(** [Math.max(0, Math.min(k - 1, lab))]. *)
Definition clampIndex (k : nat) (lab : Z) : Z :=
  Z.max 0 (Z.min (Z.of_nat k - 1) lab).

(** [oneHotify]: an empty [y] has no number at [y[0]] and is returned as
    it is. *)
Definition oneHotify (y : Labels) (k : nat) : list (list R) :=
  match y with
  | Indices [] => []
  | Indices labs =>
      map (fun lab => array_set 0 (filled k 0) (Z.to_nat (clampIndex k lab)) 1) labs
  | Rows rows => rows
  end.

(** *** the model library ([@astermind/astermind-elm])

    The classes [KernelELM] and [ELM] are not part of the repository: the
    worker only calls them, and probes with [typeof] which methods an
    object has.  A method that mutates its object (training, loading)
    returns the object after the call, also when it throws; predicting and
    serializing are taken to leave the object as it is. *)
Inductive Effect (M : Type) : Type :=
| Done (m : M)
| Failed (m : M) (msg : String.string).

Arguments Done {M} m.
Arguments Failed {M} m msg.

Record Library : Type := mkLibrary {
  (** an [ELM] or [KernelELM] object *)
  Model : Type;
  (** what [toJSON] gives and [import] takes *)
  Json : Type;
  (** the caller's [modelOptions] *)
  Options : Type;
  (** [typeof KernelELM !== 'undefined' && KernelELM] *)
  hasKernelELM : bool;
  (** [new KernelELM(deepMerge(defaults, modelOptions || {}))] with the
      kernel defaults for [outDim], and the same for [new ELM(...)] *)
  newKernelELM : nat -> option Options -> Outcome Model;
  newELM : nat -> option Options -> Outcome Model;
  (** [model.fit(Xs, Y)] *)
  fit : Model -> list (list R) -> list (list R) -> Effect Model;
  (** [model.trainFromData(Xs, Y)] and [model.train({X, y})], when the
      object has the method *)
  trainFromData : Model -> option (list (list R) -> list (list R) -> Effect Model);
  train : Model -> option (list (list R) -> list (list R) -> Effect Model);
  (** the three prediction methods, when the object has them *)
  predictProbaFromVectors : Model -> option (list (list R) -> Outcome (list (list R)));
  predictLogitsFromVectors : Model -> option (list (list R) -> Outcome (list (list R)));
  predict : Model -> option (list (list R) -> Outcome (list (list R)));
  (** [m.toJSON()], [JSON.parse(m.toJSONString())], and the dump of the
      fields that are not functions *)
  toJSON : Model -> option (Outcome Json);
  toJSONString : Model -> option (Outcome Json);
  dumpFields : Model -> Json;
  (** whether a [modelJSON] of a payload is truthy *)
  truthy : Json -> bool;
  (** [new ctor(json?.config || json?.cfg || {})] for [KernelELM] ([true])
      or [ELM] *)
  construct : bool -> Json -> Outcome Model;
  (** [m.loadModelFromJSON(JSON.stringify(json))] and [m.fromJSON(json)],
      when the object has the method *)
  loadFromJSONString : Model -> option (Json -> Effect Model);
  fromJSON : Model -> option (Json -> Effect Model)
}.

Section Boundary.

Variable L : Library.

(** Softmax of [probs1D]'s second path.  [Math.max(...[])] is
    [-Infinity], and the empty list maps to the empty list whatever the
    maximum. *)
Definition softmax (logits : list R) : list R :=
  let max := fold_left Rmax (tl logits) (hd 0 logits) in
  let exps := map (fun v => exp (v - max)) logits in
  let s := orElse (fold_left Rplus exps 0) 1 in
  map (fun v => v / s) exps.

(** [Array.isArray(P) && Array.isArray(P[0]) ? P[0] : []]. *)
Definition firstRow (P : list (list R)) : list R := hd [] P.

Definition probs1D (m : Model L) (x : list R) : Outcome (list R) :=
  match predictProbaFromVectors L m with
  | Some f => bind (f [x]) (fun P => Returned (firstRow P))
  | None =>
      match predictLogitsFromVectors L m with
      | Some f => bind (f [x]) (fun P => Returned (softmax (firstRow P)))
      | None =>
          match predict L m with
          | Some f => bind (f [x]) (fun P => Returned (firstRow P))
          | None => Thrown "Model has no predict method"
          end
      end
  end.

(** [modelToJSON], called on a model that is not null. *)
Definition modelToJSON (m : Model L) : Outcome (Json L) :=
  match toJSON L m with
  | Some r => r
  | None =>
      match toJSONString L m with
      | Some r => r
      | None => Returned (dumpFields L m)
      end
  end.

Definition loadModelFromJSON (json : Json L) : Outcome (Model L) :=
  bind (construct L (hasKernelELM L) json) (fun m =>
    match loadFromJSONString L m with
    | Some load =>
        match load json with
        | Done m' => Returned m'
        | Failed _ msg => Thrown msg
        end
    | None =>
        match fromJSON L m with
        | Some load =>
            match load json with
            | Done m' => Returned m'
            | Failed _ msg => Thrown msg
            end
        | None => Thrown "Model lacks loadModelFromJSON/fromJSON"
        end
    end).

(** *** messages *)
Record Payload : Type := mkPayload {
  pX : option (list (list R));
  py : option Labels;
  pModelOptions : option (Options L);
  px : option (list R);
  pModelJSON : option (Json L);
  pScaler : option Scaler
}.

Definition noPayload : Payload := mkPayload None None None None None None.

Record InMsg : Type := mkMsg {
  id : String.string;
  action : String.string;
  payload : Payload
}.

Inductive Result : Type :=
| Ready
| Trained
| Predicted (y : list R)
| Exported (modelJSON : Json L) (scaler : option Scaler)
| Imported
| WasReset.

Record Response : Type := mkResponse {
  rid : String.string;
  ok : bool;
  result : option Result;
  error : option String.string
}.

(** The module variables [model] and [scaler]. *)
Record State : Type := mkState {
  model : option (Model L);
  scaler : option Scaler
}.

Definition initial : State := mkState None None.

(** [post(id, true, result)]. *)
Definition succeed (st : State) (i : String.string) (r : Result)
  : State * Response :=
  (st, mkResponse i true (Some r) None).

(** The [catch]: [post(id, false, null, err?.message || String(err))];
    an [Error] with an empty message prints as ["Error"]. *)
Definition fail (st : State) (i : String.string) (msg : String.string)
  : State * Response :=
  (st, mkResponse i false None
                  (Some (if String.eqb msg "" then "Error" else msg))).

(** The end of a training method: [model] was assigned before the call. *)
Definition afterTraining (sc : Scaler) (i : String.string)
           (e : Effect (Model L)) : State * Response :=
  match e with
  | Done m => succeed (mkState (Some m) (Some sc)) i Trained
  | Failed m msg => fail (mkState (Some m) (Some sc)) i msg
  end.

(** [!X?.length || !y?.length]. *)
Definition missingInputs (p : Payload) : bool :=
  match pX p, py p with
  | Some X, Some y => (length X =? 0)%nat || (labelCount y =? 0)%nat
  | _, _ => true
  end.

Definition doTrain (st : State) (i : String.string) (p : Payload)
  : State * Response :=
  match pX p, py p with
  | Some X, Some y =>
      if (length X =? 0)%nat || (labelCount y =? 0)%nat
      then fail st i "train: missing X or y" else
      let outDim :=
        match y with
        | Rows (r0 :: _) => length r0
        | _ => 1%nat
        end in
      match fitScaler X with
      | Thrown msg => fail st i msg
      | Returned sc =>
          (* scaler = fitScaler(X) *)
          let st1 := mkState (model st) (Some sc) in
          let Xs := transformX X sc in
          let Y := oneHotify y outDim in
          if hasKernelELM L then
            match newKernelELM L outDim (pModelOptions p) with
            | Thrown msg => fail st1 i msg
            | Returned m => afterTraining sc i (fit L m Xs Y)
            end
          else
            match newELM L outDim (pModelOptions p) with
            | Thrown msg => fail st1 i msg
            | Returned m =>
                match trainFromData L m with
                | Some f => afterTraining sc i (f Xs Y)
                | None =>
                    match train L m with
                    | Some f => afterTraining sc i (f Xs Y)
                    | None =>
                        fail (mkState (Some m) (Some sc)) i
                             "ELM: no train/trainFromData method"
                    end
                end
            end
      end
  | _, _ => fail st i "train: missing X or y"
  end.

(** A [predict] request without [x] ends in the [catch]: [transformOne]
    reads [x.length]; with no scaler the model is called on [undefined],
    which is taken to throw as well. *)
Definition doPredict (st : State) (i : String.string) (p : Payload)
  : State * Response :=
  match model st with
  | None => fail st i "Model not trained yet"
  | Some m =>
      match px p with
      | None => fail st i "Cannot read properties of undefined (reading 'length')"
      | Some x =>
          let xs := match scaler st with
                    | Some sc => transformOne x sc
                    | None => x
                    end in
          match probs1D m xs with
          | Returned yhat => succeed st i (Predicted yhat)
          | Thrown msg => fail st i msg
          end
      end
  end.

Definition doExport (st : State) (i : String.string) : State * Response :=
  match model st with
  | None => fail st i "No model to export"
  | Some m =>
      match modelToJSON m with
      | Returned j => succeed st i (Exported j (scaler st))
      | Thrown msg => fail st i msg
      end
  end.

Definition doImport (st : State) (i : String.string) (p : Payload)
  : State * Response :=
  match pModelJSON p with
  | None => fail st i "Missing modelJSON"
  | Some j =>
      if negb (truthy L j) then fail st i "Missing modelJSON" else
      match loadModelFromJSON j with
      | Thrown msg => fail st i msg
      | Returned m => succeed (mkState (Some m) (pScaler p)) i Imported
      end
  end.

Definition onmessage (st : State) (e : InMsg) : State * Response :=
  let i := id e in
  let a := action e in
  if String.eqb a "init" then succeed st i Ready
  else if String.eqb a "train" then doTrain st i (payload e)
  else if String.eqb a "predict" then doPredict st i (payload e)
  else if String.eqb a "export" then doExport st i
  else if String.eqb a "import" then doImport st i (payload e)
  else if String.eqb a "reset" then succeed (mkState None None) i WasReset
  else (st, mkResponse i false None
                       (Some (String.append "Unknown action: " a))).

Definition knownAction (a : String.string) : bool :=
  existsb (String.eqb a) ["init"; "train"; "predict"; "export"; "import"; "reset"].

(** The boundary handles its messages one after the other. *)
Fixpoint serve (st : State) (msgs : list InMsg) : State * list Response :=
  match msgs with
  | [] => (st, [])
  | e :: rest =>
      let '(st1, r) := onmessage st e in
      let '(st2, rs) := serve st1 rest in
      (st2, r :: rs)
  end.

(** Requests as the main thread builds them. *)
Definition predictRequest (i : String.string) (x : list R) : InMsg :=
  mkMsg i "predict" (mkPayload None None None (Some x) None None).

Definition exportRequest (i : String.string) : InMsg :=
  mkMsg i "export" noPayload.

Definition resetRequest (i : String.string) : InMsg :=
  mkMsg i "reset" noPayload.

Definition importRequest (i : String.string) (j : Json L) (sc : option Scaler)
  : InMsg :=
  mkMsg i "import" (mkPayload None None None None (Some j) sc).

End Boundary.

End Worker.

(** ** Words of the specification, for comparison with the code *)
Module Spec.

Local Open Scope R_scope.

(** Sum of the squared samples of a window. *)
Fixpoint sumSquares (x : list R) : R :=
  match x with
  | [] => 0
  | v :: x' => v * v + sumSquares x'
  end.

(** Position of the first occurrence of a class in the history (the
    length of the history when it does not occur). *)
Fixpoint firstIndex (k : Z) (h : list Z) : nat :=
  match h with
  | [] => O
  | c :: h' => if (c =? k)%Z then O else S (firstIndex k h')
  end.

(** Number of occurrences of a class in the history. *)
Definition occurrences (k : Z) (h : list Z) : nat := count_occ Z.eq_dec h k.

(** Sum of a row. *)
Definition total (row : list R) : R := fold_right Rplus 0 row.

(** Number of entries of a row that are 1. *)
Definition countOnes (row : list R) : nat :=
  length (filter (fun v => if Req_dec_T v 1 then true else false) row).

(** Column [j] of a matrix, its mean, and its sample standard deviation
    with the [n - 1] denominator. *)
Definition column (j : nat) (X : list (list R)) : list R :=
  map (fun row => nth j row 0) X.

Definition mean (col : list R) : R := total col / INR (length col).

Definition sampleStd (col : list R) : R :=
  sqrt (total (map (fun v => (v - mean col) * (v - mean col)) col)
        / (INR (length col) - 1)).

(** The keys of a list stand in strictly increasing order of [f]. *)
Fixpoint ascending (f : Z -> nat) (ks : list Z) : Prop :=
  match ks with
  | [] => True
  | a :: ks' => (forall b, In b ks' -> (f a < f b)%nat) /\ ascending f ks'
  end.

End Spec.

(** ** A small model library, to run the boundary on

    It stands in for the classes the worker imports: a [KernelELM] object
    is unfitted ([None]) or holds the score row it learned; [fit] refuses a
    feature matrix and a label matrix of different lengths; [predict]
    answers the learned row for every input row and throws on an unfitted
    object; [toJSON] gives the state and [fromJSON] takes it back. *)
Module Toy.

Import Exn Worker.
Local Open Scope string_scope.

Definition ToyModel : Type := option (list R).

Definition toyFit (m : ToyModel) (Xs Y : list (list R)) : Effect ToyModel :=
  if (length Xs =? length Y)%nat then Done (Some (hd [] Y))
  else Failed m "fit: X and Y differ in length".

Definition toyPredict (m : ToyModel) (xs : list (list R)) : Outcome (list (list R)) :=
  match m with
  | Some w => Returned (map (fun _ => w) xs)
  | None => Thrown "Model not fitted"
  end.

Definition lib : Library :=
  {| Model := ToyModel;
     Json := ToyModel;
     Options := unit;
     hasKernelELM := true;
     newKernelELM := fun _ _ => Returned None;
     newELM := fun _ _ => Returned None;
     fit := toyFit;
     trainFromData := fun _ => None;
     train := fun _ => None;
     predictProbaFromVectors := fun _ => None;
     predictLogitsFromVectors := fun _ => None;
     predict := fun m => Some (toyPredict m);
     toJSON := fun m => Some (Returned m);
     toJSONString := fun _ => None;
     dumpFields := fun m => m;
     truthy := fun _ => true;
     construct := fun _ _ => Returned None;
     loadFromJSONString := fun _ => None;
     fromJSON := fun _ => Some (fun j => Done j) |}.

(** A [train] request that succeeds: two rows, two labels. *)
Definition goodTrain : InMsg lib :=
  @mkMsg lib "t1" "train"
        (@mkPayload lib (Some [[1%R]; [3%R]]) (Some (Rows [[1%R; 0%R]; [0%R; 1%R]]))
                   None None None None).

(** The boundary after that request: a fitted model and its scaler. *)
Definition trained : State lib := fst (onmessage (initial lib) goodTrain).



Definition unknownMsg : InMsg lib := @mkMsg lib "u1" "frobnicate" (noPayload lib).

(** A coefficient routine that answers 13 ones for every frame. *)
Definition meyda (sampleRate : R) (bufferSize : Z) (frame : list R)
  : option (list R) :=
  Some (repeat 1%R 13).

(** Ticks of the loop: a loud window with a confident "left" reply, a
    loud window with a confident "right" reply, and an empty buffer. *)
Definition loudLeft : Main.Tick :=
  Main.mkTick [[1%R]] [1%R] (Main.Resolved (Some [0.9%R; 0.1%R])).

Definition loudRight : Main.Tick :=
  Main.mkTick [[1%R]] [1%R] (Main.Resolved (Some [0.1%R; 0.9%R])).

Definition silent : Main.Tick :=
  Main.mkTick [] [] Main.Rejected.

(** The loop once the worker exists and [startListening] has run. *)
Definition listening : Main.Loop :=
  Main.mkLoop true [] false None false.

End Toy.

(** ** [src/main.ts]: the capture buffer, and what a tick votes for *)
Module Capture.

Import JS Main.
Local Open Scope Z_scope.

(** Samples held by the rolling buffer: the length of [takeCapturedMono]. *)
Definition samples (buf : list (list R)) : Z :=
  Z.of_nat (length (takeCapturedMono buf)).

(** The bounding loop of [onaudioprocess]:
    [for (let i = captureBuf.length - 1; i >= 0; i--) { total +=
    captureBuf[i].length; if (total > maxSamples) { captureBuf.splice(0, i);
    break; } }], on [i1 = i + 1]. *)
Fixpoint trimLoop (buf : list (list R)) (maxSamples : Z) (i1 : nat) (total : Z)
  : list (list R) :=
  match i1 with
  | O => buf
  | S i =>
      let total := total + Z.of_nat (length (nth i buf [])) in
      if total >? maxSamples then skipn i buf
      else trimLoop buf maxSamples i total
  end.

(** [processor.onaudioprocess]: push the new chunk, keep the buffer bounded. *)
Definition onaudioprocess (sampleRate : R) (captureBuf : list (list R))
           (ch0 : list R) : list (list R) :=
  let buf := captureBuf ++ [ch0] in
  let maxSamples := Math_ceil (5 * sampleRate) in
  trimLoop buf maxSamples (length buf) 0.

(** The state a sequence of steps ends in. *)
Fixpoint endState (I : Type) (step : Loop -> I -> Loop * TickOut)
         (st : Loop) (inputs : list I) : Loop :=
  match inputs with
  | [] => st
  | i :: rest => endState step (fst (step st i)) rest
  end.




End Capture.

(** ** [src/mfcc.ts]: words for the frame size, the peak and silence *)
Module Frames.

Import JS Exn Loops Mfcc.
Local Open Scope R_scope.

(** The power of two nearest to [t >= 1], the lower one when two are
    equally near. *)
Definition nearestPow2 (t : Z) : Z :=
  let k := Z.log2 t in
  if (2 ^ (k + 1) - t <? t - 2 ^ k)%Z then (2 ^ (k + 1))%Z else (2 ^ k)%Z.

(** A sample below the threshold, and one that reaches it. *)
Definition quiet (thr : R) (v : R) : Prop := Rabs v < thr.
Definition loud (thr : R) (v : R) : Prop := thr <= Rabs v.


End Frames.

(** ** The request/response protocol of the worker *)
Module Protocol.

Import JS Exn Worker.
Local Open Scope string_scope.

Section Answers.

Variable L : Library.

(** What the main thread's [callWorker] relies on: the response carries
    the request's id; a success has a result and no error; a failure has no
    result and a message that is not empty. *)
Definition answered (i : String.string) (r : Response L) : Prop :=
  rid r = i /\
  (ok r = true /\ (exists v, result r = Some v) /\ error r = None \/
   ok r = false /\ result r = None /\
   exists m, error r = Some m /\ m <> "").

End Answers.

End Protocol.

(** ** [src/main.ts]: the training request *)
Module Train.

Import JS Exn Worker.
Local Open Scope string_scope.
Local Open Scope R_scope.

(** [oneHot(index, classes = 2)]. *)
Definition oneHot (index : nat) (classes : nat) : list R :=
  array_set 0 (filled classes 0) index 1.

Section Request.

Variable L : Library.

(** [trainModel], up to the message it sends: the left samples with
    [oneHot(0)], then the right samples with [oneHot(1)]; nothing is sent
    for fewer than 8 samples.  [i] is the id [callWorker] draws, and
    [modelOptions] the options object of the call. *)
Definition trainModel (i : String.string)
           (leftSamples rightSamples : list (list R))
           (modelOptions : Options L) : option (InMsg L) :=
  let X := leftSamples ++ rightSamples in
  let y := map (fun _ => oneHot 0 2) leftSamples
           ++ map (fun _ => oneHot 1 2) rightSamples in
  if (length X <? 8)%nat then None
  else Some (mkMsg i "train"
                   (mkPayload L (Some X) (Some (Rows y)) (Some modelOptions)
                              None None None)).

End Request.

End Train.

(** ** [src/game.ts]: the runner game the commands steer *)
Module Game.

Import JS Main.
Local Open Scope string_scope.
Local Open Scope R_scope.

Record Obstacle : Type := mkObstacle {
  lane : Z;
  y : R;
  w : R;
  h : R
}.

(** The fields of [InfiniteRunnerGame] that the rules read or write; the
    canvas context and the HUD elements are only drawn to. *)
Record Game : Type := mkGame {
  width : R;
  height : R;
  laneXs : list R;
  playerLane : Z;
  obstacles : list Obstacle;
  speed : R;
  spawnEvery : Z;
  frame : Z;
  running : bool;
  score : Z
}.

Definition lanes : Z := 3.
Definition laneW : R := 100.
Definition playerW : R := 70.
Definition playerH : R := 70.
Definition playerY (g : Game) : R := height g - 110.

(** The constructor, for a canvas that has a 2D context. *)
Definition construct (canvasWidth canvasHeight : R) : Game :=
  let padding := (canvasWidth - IZR lanes * laneW) / (IZR lanes + 1) in
  mkGame canvasWidth canvasHeight
         (map (fun i => padding + INR i * (laneW + padding) + laneW / 2)
              (seq 0 (Z.to_nat lanes)))
         1 [] 3 70 0 false 0.

Definition set_playerLane (g : Game) (l : Z) : Game :=
  mkGame (width g) (height g) (laneXs g) l (obstacles g) (speed g)
         (spawnEvery g) (frame g) (running g) (score g).

Definition set_running (g : Game) (b : bool) : Game :=
  mkGame (width g) (height g) (laneXs g) (playerLane g) (obstacles g) (speed g)
         (spawnEvery g) (frame g) b (score g).

Definition moveLeft (g : Game) : Game :=
  set_playerLane g (Z.max 0 (playerLane g - 1)).

Definition moveRight (g : Game) : Game :=
  set_playerLane g (Z.min (lanes - 1) (playerLane g + 1)).

(** The listener of [voice-command]. *)
Definition onVoiceCommand (label : Label) (g : Game) : Game :=
  if negb (running g) then g else
  match label with
  | LEFT => moveLeft g
  | RIGHT => moveRight g
  end.

(** The listener of [keydown]. *)
Definition onKeyDown (key : String.string) (g : Game) : Game :=
  if negb (running g) then g else
  let g := if String.eqb key "ArrowLeft" then moveLeft g else g in
  if String.eqb key "ArrowRight" then moveRight g else g.

(** [[all[i], all[j]] = [all[j], all[i]]]. *)
Definition swap (all : list Z) (i j : nat) : list Z :=
  let aj := nth j all 0%Z in
  let ai := nth i all 0%Z in
  array_set 0%Z (array_set 0%Z all i aj) j ai.

(** [for (let i = all.length - 1; i > 0; i--)]: [rnd k] is the result of
    the [k]-th call of [Math.random] from here on. *)
Fixpoint shuffle (i : nat) (rnd : nat -> R) (k : nat) (all : list Z) : list Z :=
  match i with
  | O => all
  | S i' =>
      let j := Z.to_nat (Math_floor (rnd k * (INR i + 1))) in
      shuffle i' rnd (S k) (swap all i j)
  end.

Definition sampleLanes (rnd : nat -> R) (count : nat) : list Z :=
  let all := [0; 1; 2]%Z in
  firstn count (shuffle (length all - 1) rnd O all).

(** The collision test of [update] for one obstacle. *)
Definition collides (g : Game) (o : Obstacle) : bool :=
  let px := nth (Z.to_nat (playerLane g)) (laneXs g) 0 - playerW / 2 in
  let py := playerY g in
  let ox := nth (Z.to_nat (lane o)) (laneXs g) 0 - w o / 2 in
  let oy := y o in
  ltb px (ox + w o) && gtb (px + playerW) ox
  && ltb py (oy + h o) && gtb (py + playerH) oy.

(** [update]: [rnd] holds the random numbers of this frame in call order.
    [%] is the remainder of the truncated division. *)
Definition update (rnd : nat -> R) (g : Game) : Game :=
  let frame := (frame g + 1)%Z in
  let spawn := (Z.rem frame (spawnEvery g) =? 0)%Z in
  let obstacles :=
    if spawn then
      let count := if ltb (rnd O) 0.75 then 1%nat else 2%nat in
      obstacles g
        ++ map (fun lane => mkObstacle lane (-80) 70 70)
               (sampleLanes (fun k => rnd (S k)) count)
    else obstacles g in
  let spawnEvery :=
    if spawn && (spawnEvery g >? 35)%Z then (spawnEvery g - 1)%Z
    else spawnEvery g in
  let speed :=
    if spawn && (Z.rem frame 600 =? 0)%Z && ltb (speed g) 10
    then speed g + 0.5 else speed g in
  let obstacles :=
    map (fun o => mkObstacle (lane o) (y o + speed) (w o) (h o)) obstacles in
  let obstacles := filter (fun o => ltb (y o) (height g + 100)) obstacles in
  let g1 := mkGame (width g) (height g) (laneXs g) (playerLane g) obstacles
                   speed spawnEvery frame (running g) (score g) in
  if existsb (collides g1) obstacles then
    (* gameOver() *)
    set_running g1 false
  else
    mkGame (width g) (height g) (laneXs g) (playerLane g) obstacles
           speed spawnEvery frame (running g) (score g + Math_floor speed)%Z.

Definition loop (rnd : nat -> R) (g : Game) : Game :=
  if negb (running g) then g else update rnd g.

Definition start (rnd : nat -> R) (g : Game) : Game :=
  if running g then g else loop rnd (set_running g true).

Definition pause (g : Game) : Game := set_running g false.

Definition reset (g : Game) : Game :=
  mkGame (width g) (height g) (laneXs g) 1 [] 3 70 0 false 0.

(** What can happen to a game: the two listeners, the three buttons, and
    an animation frame. *)
Inductive Event : Type :=
| VoiceCommand (label : Label)
| KeyDown (key : String.string)
| Start (rnd : nat -> R)
| Pause
| Reset
| AnimationFrame (rnd : nat -> R).

Definition handle (g : Game) (e : Event) : Game :=
  match e with
  | VoiceCommand label => onVoiceCommand label g
  | KeyDown key => onKeyDown key g
  | Start rnd => start rnd g
  | Pause => pause g
  | Reset => reset g
  | AnimationFrame rnd => loop rnd g
  end.

Definition play (g : Game) (events : list Event) : Game :=
  fold_left handle events g.

(** [Math.random] answers in [0, 1). *)
Definition unit_interval (rnd : nat -> R) : Prop :=
  forall k, 0 <= rnd k < 1.

Definition fair (e : Event) : Prop :=
  match e with
  | Start rnd | AnimationFrame rnd => unit_interval rnd
  | _ => True
  end.

(** An obstacle as [update] makes them: in one of the three lanes, 70 by
    70. *)
Definition standard (o : Obstacle) : Prop :=
  (0 <= lane o <= 2)%Z /\ w o = 70 /\ h o = 70.

(** The speed is one of 3, 3.5, ..., 10. *)
Definition speedLevel (s : R) : Prop :=
  exists k : Z, (0 <= k <= 14)%Z /\ s = 3 + 0.5 * IZR k.

(** What every event keeps true. *)
Definition inPlay (g : Game) : Prop :=
  (0 <= playerLane g <= 2)%Z /\
  (35 <= spawnEvery g <= 70)%Z /\
  speedLevel (speed g) /\
  (0 <= frame g)%Z /\
  (0 <= score g)%Z /\
  Forall standard (obstacles g).

(** Does an event list hold an event that starts or resets the game? *)
Definition restarts (e : Event) : bool :=
  match e with
  | Start _ | Reset => true
  | _ => false
  end.

End Game.

(* ================================================================== *)
(** * Part II - properties *)
(* ================================================================== *)

Unset Implicit Arguments.

(** ** Energy of a window *)
Section RmsFacts.

Import JS Main Spec.
Local Open Scope R_scope.

Lemma geb_true (x y : R) : geb x y = true <-> x >= y.
Proof. unfold geb. destruct (Rge_dec x y); split; intros; congruence || assumption. Qed.

Lemma geb_false (x y : R) : geb x y = false <-> x < y.
Proof.
  unfold geb. destruct (Rge_dec x y); split; intros; try congruence; try lra.
Qed.

Lemma gtb_true (x y : R) : gtb x y = true <-> x > y.
Proof. unfold gtb. destruct (Rgt_dec x y); split; intros; congruence || assumption. Qed.

Lemma ltb_true (x y : R) : ltb x y = true <-> x < y.
Proof. unfold ltb. destruct (Rlt_dec x y); split; intros; congruence || assumption. Qed.

Lemma ltb_false (x y : R) : ltb x y = false <-> y <= x.
Proof.
  unfold ltb. destruct (Rlt_dec x y); split; intros; try congruence; try lra.
Qed.

Lemma fold_squares (x : list R) (s : R) :
  fold_left (fun s v => s + v * v) x s = s + sumSquares x.
Proof.
  revert s. induction x as [|v x IH]; intros s; simpl.
  - lra.
  - rewrite IH. lra.
Qed.

Lemma divisor_pos (n : nat) : 1 <= Rmax 1 (INR n).
Proof. apply Rmax_l. Qed.

Lemma lastWindow_nil (sr : R) : lastWindow sr [] = [].
Proof. unfold lastWindow. simpl. destruct (0 >? Math_ceil (0.8 * sr))%Z; reflexivity. Qed.

Lemma rms_nil : rms [] = 0.
Proof.
  unfold rms. simpl. replace (0 / Rmax 1 0) with 0.
  - apply sqrt_0.
  - unfold Rdiv. now rewrite Rmult_0_l.
Qed.

(** C10. [rms] is defined on every window: its divisor [max(1, length)] is
    at least 1, hence never zero; its value is the square root of the sum
    of the squared samples over that divisor; the value is non-negative;
    the empty window has energy exactly 0, and with gating on an empty
    capture buffer is silence in either state of the gate. *)
Theorem rms_total_nonneg :
  (forall x : list R,
      Rmax 1 (INR (length x)) <> 0 /\
      rms x = sqrt (sumSquares x / Rmax 1 (INR (length x))) /\
      0 <= rms x) /\
  rms [] = 0 /\
  (forall (sr : R) (inSp : bool),
      speechNow true inSp (rms (lastWindow sr (takeCapturedMono []))) = false).
Proof.
  split; [|split].
  - intros x. split; [|split].
    + pose proof (divisor_pos (length x)). lra.
    + unfold rms. rewrite fold_squares. now rewrite Rplus_0_l.
    + unfold rms. apply sqrt_pos.
  - exact rms_nil.
  - intros sr inSp. simpl. rewrite lastWindow_nil, rms_nil.
    unfold speechNow. simpl.
    destruct inSp; apply geb_false; unfold VAD_EXIT, VAD_ENTER; lra.
Qed.

End RmsFacts.

(** ** The fire-once flag, for any step function *)
Section FireOnce.

Import Main.

Variable I : Type.
Variable step : Loop -> I -> Loop * TickOut.

(** A step dispatches a command only right after an edge or while the flag
    is down, and leaves the flag up; without edge and command the flag
    stays as it ins. *)
Hypothesis step_shape :
  forall (st : Loop) (i : I),
    match speechStart (snd (step st i)), command (snd (step st i)) with
    | true, Some _ => utteranceFired (fst (step st i)) = true
    | true, None => True
    | false, Some _ =>
        utteranceFired st = false /\ utteranceFired (fst (step st i)) = true
    | false, None => utteranceFired (fst (step st i)) = utteranceFired st
    end.

Lemma commands_cons (o : TickOut) (os : list TickOut) :
  commands (o :: os)
  = ((match command o with Some _ => 1 | None => 0 end) + commands os)%nat.
Proof. unfold commands. simpl. destruct (command o); reflexivity. Qed.

Lemma onsets_cons (o : TickOut) (os : list TickOut) :
  onsets (o :: os) = ((if speechStart o then 1 else 0) + onsets os)%nat.
Proof. unfold onsets. simpl. destruct (speechStart o); reflexivity. Qed.

(** Once the flag is up, steps without a new edge dispatch nothing. *)
Lemma quiet_after_fire (ins : list I) :
  forall st : Loop,
    utteranceFired st = true ->
    onsets (trace step st ins) = O ->
    commands (trace step st ins) = O.
Proof.
  induction ins as [|i ins IH]; intros st Hf Hon; [reflexivity|].
  simpl in *. rewrite onsets_cons in Hon. rewrite commands_cons.
  pose proof (step_shape st i) as H.
  destruct (speechStart (snd (step st i))); [discriminate|].
  destruct (command (snd (step st i))).
  - destruct H as [H _]. congruence.
  - apply IH; [congruence | assumption].
Qed.

Lemma no_onset_bound (ins : list I) :
  forall st : Loop,
    onsets (trace step st ins) = O ->
    (commands (trace step st ins) <= 1)%nat.
Proof.
  induction ins as [|i ins IH]; intros st Hon; [unfold commands; simpl; lia|].
  simpl in *. rewrite onsets_cons in Hon. rewrite commands_cons.
  pose proof (step_shape st i) as H.
  destruct (speechStart (snd (step st i))); [discriminate|].
  destruct (command (snd (step st i))).
  - destruct H as [_ H]. rewrite quiet_after_fire; [lia | assumption | assumption].
  - apply IH. assumption.
Qed.

Lemma segment_bound (st : Loop) (ins : list I) :
  onsets (tl (trace step st ins)) = O ->
  (commands (trace step st ins) <= 1)%nat.
Proof.
  destruct ins as [|i ins]; intros Hon; [unfold commands; simpl; lia|].
  simpl in *. rewrite commands_cons.
  pose proof (step_shape st i) as H.
  pose proof (no_onset_bound ins (fst (step st i)) Hon) as B.
  destruct (command (snd (step st i))); [|lia].
  assert (Hf : utteranceFired (fst (step st i)) = true)
    by (destruct (speechStart (snd (step st i))); tauto).
  rewrite quiet_after_fire; [lia | assumption | assumption].
Qed.

(** A stretch of a trace is the trace of a stretch of the steps. *)
Lemma trace_suffix (ins : list I) :
  forall (st : Loop) (pre rest : list TickOut),
    trace step st ins = pre ++ rest ->
    exists (st' : Loop) (ins' : list I), rest = trace step st' ins'.
Proof.
  induction ins as [|i ins IH]; intros st pre rest E.
  - simpl in E. symmetry in E. apply app_eq_nil in E. destruct E as [_ ->].
    exists st, []. reflexivity.
  - destruct pre as [|o pre].
    + exists st, (i :: ins). symmetry. exact E.
    + simpl in E. injection E as _ E. eapply IH. exact E.
Qed.

Lemma trace_prefix (ins : list I) :
  forall (st : Loop) (seg post : list TickOut),
    trace step st ins = seg ++ post ->
    exists ins' : list I, seg = trace step st ins'.
Proof.
  induction ins as [|i ins IH]; intros st seg post E.
  - simpl in E. symmetry in E. apply app_eq_nil in E. destruct E as [-> _].
    exists []. reflexivity.
  - destruct seg as [|o seg].
    + exists []. reflexivity.
    + simpl in E. injection E as Eo E.
      destruct (IH _ _ _ E) as [ins' ->].
      exists (i :: ins'). simpl. now rewrite Eo.
Qed.

Lemma stretch_bound (st : Loop) (ins : list I) (pre seg post : list TickOut) :
  trace step st ins = pre ++ seg ++ post ->
  onsets (tl seg) = O ->
  (commands seg <= 1)%nat.
Proof.
  intros E Hseg.
  destruct (trace_suffix ins st pre (seg ++ post) E) as (st' & ins' & E').
  destruct (trace_prefix ins' st' seg post (eq_sym E')) as (ins'' & ->).
  now apply segment_bound.
Qed.

End FireOnce.

(** ** The gate and the ticks *)
Section LoopFacts.

Import JS Main Spec.
Local Open Scope R_scope.

Variable sampleRate : R.

(** [decide] touches neither [worker] nor [inSpeech]; it dispatches only
    while the flag is down, and raises it when it does. *)
Lemma decide_shape (st : Loop) (t : Tick) :
  let r := decide st t in
  worker (fst r) = worker st /\
  inSpeech (fst r) = inSpeech st /\
  match snd r with
  | Some _ => utteranceFired st = false /\ utteranceFired (fst r) = true
  | None => utteranceFired (fst r) = utteranceFired st
  end.
Proof.
  unfold decide.
  destruct (negb (nonZero (feats t))); [simpl; auto|].
  destruct (reply t) as [|[y|]]; try (simpl; auto).
  destruct (length y <? 2)%nat; [simpl; auto|].
  destruct (argmax _) as [idx val].
  destruct (majority _); [|simpl; auto].
  simpl utteranceFired.
  destruct (utteranceFired st); simpl; auto.
  destruct (confident val); simpl; auto.
Qed.

(** The gate sets [inSpeech] to [speechNow]; it goes on exactly when that
    is true; it clears the flag exactly on an edge. *)
Lemma gate_shape (rv : bool) (st : Loop) (t : Tick) :
  let g := gate rv sampleRate st t in
  let now := speechNow rv (inSpeech st)
               (rms (lastWindow sampleRate (takeCapturedMono (captureBuf t)))) in
  inSpeech (after g) = now /\
  go g = now /\
  started g = negb (inSpeech st) && now /\
  utteranceFired (after g)
  = (if started g then false else utteranceFired st).
Proof.
  unfold gate. cbv zeta.
  destruct (inSpeech st) eqn:Hin;
    destruct (speechNow rv _ _) eqn:Hnow; simpl; rewrite ?Hin; auto.
Qed.

(** With a worker, the state of the gate after a tick is [speechNow]. *)
Lemma tick_gate (rv : bool) (st : Loop) (t : Tick) :
  worker st = true ->
  inSpeech (fst (livePredictTick rv sampleRate st t))
  = speechNow rv (inSpeech st)
              (rms (lastWindow sampleRate (takeCapturedMono (captureBuf t)))).
Proof.
  intros Hw. unfold livePredictTick. rewrite Hw. simpl negb. cbv iota zeta.
  destruct (gate_shape rv st t) as (Hi & _).
  destruct (go (gate rv sampleRate st t)); [|exact Hi].
  pose proof (decide_shape (after (gate rv sampleRate st t)) t) as H.
  destruct (decide _ t). simpl in *. destruct H as (_ & H & _). congruence.
Qed.

(** C8. With gating on, the gate is a two-state machine with hysteresis:
    from Silence it enters Speech exactly when the energy of the window is
    at least 0.005, from Speech it falls back to Silence exactly when the
    energy is below 0.003, the exit threshold lies strictly below the enter
    threshold, and an energy between the two leaves the state as it was.
    With gating off, every tick is handled as speech. *)
Theorem vad_gate_hysteresis (st : Loop) (t : Tick) (Hw : worker st = true) :
  let e := rms (lastWindow sampleRate (takeCapturedMono (captureBuf t))) in
  let gated := fst (livePredictTick true sampleRate st t) in
  let ungated := fst (livePredictTick false sampleRate st t) in
  VAD_ENTER = 0.005 /\ VAD_EXIT = 0.003 /\ VAD_EXIT < VAD_ENTER /\
  (inSpeech st = false -> (inSpeech gated = true <-> e >= VAD_ENTER)) /\
  (inSpeech st = true -> (inSpeech gated = false <-> e < VAD_EXIT)) /\
  (VAD_EXIT <= e < VAD_ENTER -> inSpeech gated = inSpeech st) /\
  inSpeech ungated = true /\
  (forall inSp x, speechNow false inSp x = true).
Proof.
  intros e gated ungated.
  assert (Hg : inSpeech gated = speechNow true (inSpeech st) e)
    by (apply tick_gate; assumption).
  assert (Hu : inSpeech ungated = speechNow false (inSpeech st) e)
    by (apply tick_gate; assumption).
  split; [reflexivity|]. split; [reflexivity|].
  split; [unfold VAD_EXIT, VAD_ENTER; lra|].
  split; [|split; [|split; [|split]]].
  - intros Hs. rewrite Hg, Hs. unfold speechNow. simpl. apply geb_true.
  - intros Hs. rewrite Hg, Hs. unfold speechNow. simpl. apply geb_false.
  - intros He. rewrite Hg. unfold speechNow. simpl.
    destruct (inSpeech st).
    + apply geb_true. lra.
    + apply geb_false. lra.
  - rewrite Hu. reflexivity.
  - reflexivity.
Qed.

(** *** One command per utterance *)


Lemma part_shape (rv : bool) (st : Loop) (p : Part) :
  let r := part rv sampleRate st p in
  match speechStart (snd r), command (snd r) with
  | true, Some _ => utteranceFired (fst r) = true
  | true, None => True
  | false, Some _ =>
      utteranceFired st = false /\ utteranceFired (fst r) = true
  | false, None => utteranceFired (fst r) = utteranceFired st
  end.
Proof.
  destruct p as [t|t]; simpl.
  - destruct (worker st); simpl; [|reflexivity].
    destruct (gate_shape rv st t) as (_ & _ & _ & Hf).
    destruct (started (gate rv sampleRate st t)); [exact I|exact Hf].
  - pose proof (decide_shape st t) as H.
    destruct (decide st t) as [st' [l|]]; simpl in *; tauto.
Qed.




(** The same bound when ticks overlap: whatever the order in which gates
    and continuations run, a stretch without an edge after its first part
    dispatches at most one command. *)
Lemma one_command_per_utterance_interleaved
      (rv : bool) (st : Loop) (parts : list Part)
      (pre seg post : list TickOut) :
  runParts rv sampleRate st parts = pre ++ seg ++ post ->
  onsets (tl seg) = O ->
  (commands seg <= 1)%nat.
Proof.
  exact (stretch_bound Part (part rv sampleRate) (part_shape rv)
                       st parts pre seg post).
Qed.

End LoopFacts.

(** ** Majority vote *)
Section MajorityFacts.

Import Main Spec.
Local Open Scope Z_scope.

Lemma get_set (m : CountMap) (k c k' : Z) :
  get_or_zero (map_set m k c) k' = if k =? k' then c else get_or_zero m k'.
Proof.
  unfold get_or_zero.
  induction m as [|[a v] m IH]; simpl.
  - destruct (k =? k'); reflexivity.
  - destruct (a =? k) eqn:Eak; simpl.
    + apply Z.eqb_eq in Eak. subst a. destruct (k =? k'); reflexivity.
    + destruct (a =? k') eqn:Eak'.
      * apply Z.eqb_eq in Eak'. subst a. rewrite Z.eqb_sym, Eak. reflexivity.
      * exact IH.
Qed.

Lemma keys_set (m : CountMap) (k c : Z) :
  (In k (keys m) -> keys (map_set m k c) = keys m) /\
  (~ In k (keys m) -> keys (map_set m k c) = keys m ++ [k]).
Proof.
  induction m as [|[a v] m [IH1 IH2]]; simpl; split; intros H.
  - contradiction.
  - reflexivity.
  - destruct (a =? k) eqn:E; simpl.
    + apply Z.eqb_eq in E. now subst.
    + apply Z.eqb_neq in E. destruct H as [H|H]; [contradiction|].
      f_equal. now apply IH1.
  - destruct (a =? k) eqn:E; simpl.
    + apply Z.eqb_eq in E. tauto.
    + f_equal. apply IH2. tauto.
Qed.

Lemma tally_snoc (p : list Z) (i : Z) :
  tally (p ++ [i]) = map_set (tally p) i (get_or_zero (tally p) i + 1).
Proof. unfold tally. now rewrite fold_left_app. Qed.

Lemma firstIndex_app_in (a : Z) (p q : list Z) :
  In a p -> firstIndex a (p ++ q) = firstIndex a p.
Proof.
  induction p as [|c p IH]; simpl; intros H; [contradiction|].
  destruct (c =? a) eqn:E; [reflexivity|].
  apply Z.eqb_neq in E. destruct H as [H|H]; [contradiction|].
  f_equal. now apply IH.
Qed.

Lemma firstIndex_in_lt (a : Z) (p : list Z) :
  In a p -> (firstIndex a p < length p)%nat.
Proof.
  induction p as [|c p IH]; simpl; intros H; [contradiction|].
  destruct (c =? a) eqn:E; [lia|].
  apply Z.eqb_neq in E. destruct H as [H|H]; [contradiction|].
  specialize (IH H). lia.
Qed.

Lemma firstIndex_fresh (a : Z) (p : list Z) :
  ~ In a p -> firstIndex a (p ++ [a]) = length p.
Proof.
  induction p as [|c p IH]; simpl; intros H.
  - now rewrite Z.eqb_refl.
  - destruct (c =? a) eqn:E.
    + apply Z.eqb_eq in E. tauto.
    + f_equal. apply IH. tauto.
Qed.

Lemma ascending_ext (f g : Z -> nat) (ks : list Z) :
  (forall a, In a ks -> f a = g a) -> ascending f ks -> ascending g ks.
Proof.
  induction ks as [|a ks IH]; simpl; intros E H; [exact I|].
  destruct H as [H1 H2]. split.
  - intros b Hb. rewrite <- (E a), <- (E b); auto.
  - apply IH; auto.
Qed.

Lemma ascending_snoc (f : Z -> nat) (ks : list Z) (x : Z) :
  ascending f ks -> (forall a, In a ks -> (f a < f x)%nat) ->
  ascending f (ks ++ [x]).
Proof.
  induction ks as [|a ks IH]; simpl; intros H Hx.
  - split; [intros b []|exact I].
  - destruct H as [H1 H2]. split.
    + intros b Hb. apply in_app_or in Hb. destruct Hb as [Hb|[<-|[]]]; auto.
    + apply IH; auto.
Qed.

Lemma ascending_after (f : Z -> nat) (l1 l2 : list Z) (a : Z) :
  ascending f (l1 ++ a :: l2) -> forall b, In b l2 -> (f a < f b)%nat.
Proof.
  induction l1 as [|c l1 IH]; simpl; intros [H1 H2] b Hb; auto.
Qed.

Lemma ascending_NoDup (f : Z -> nat) (ks : list Z) :
  ascending f ks -> NoDup ks.
Proof.
  induction ks as [|a ks IH]; simpl; intros H; constructor.
  - intros Hin. destruct H as [H _]. specialize (H a Hin). lia.
  - apply IH. tauto.
Qed.

(** What the [Map] holds after the history [p] was counted: the classes of
    [p], in the order of their first occurrence, each with its count. *)
Lemma tally_inv (p : list Z) :
  (forall k, get_or_zero (tally p) k = Z.of_nat (occurrences k p)) /\
  (forall k, In k (keys (tally p)) <-> In k p) /\
  ascending (fun a => firstIndex a p) (keys (tally p)).
Proof.
  induction p as [|i p (IHc & IHk & IHo)] using rev_ind.
  - simpl. repeat split; intros; try contradiction; auto.
  - rewrite tally_snoc. set (m := tally p) in *.
    destruct (keys_set m i (get_or_zero m i + 1)) as [K1 K2].
    split; [|split].
    + intros k. rewrite get_set. unfold occurrences.
      rewrite count_occ_app. simpl.
      destruct (Z.eq_dec i k) as [->|N].
      * rewrite Z.eqb_refl, IHc. unfold occurrences. lia.
      * apply Z.eqb_neq in N. rewrite N, IHc. unfold occurrences. lia.
    + intros k. rewrite in_app_iff. simpl.
      destruct (in_dec Z.eq_dec i (keys m)) as [Hi|Hi].
      * rewrite (K1 Hi). rewrite IHk. split; [tauto|].
        intros [H|[<-|[]]]; [assumption|]. now apply IHk.
      * rewrite (K2 Hi). rewrite in_app_iff, IHk. simpl. tauto.
    + destruct (in_dec Z.eq_dec i (keys m)) as [Hi|Hi].
      * rewrite (K1 Hi).
        apply ascending_ext with (f := fun a => firstIndex a p); [|assumption].
        intros a Ha. symmetry. apply firstIndex_app_in. now apply IHk.
      * rewrite (K2 Hi). apply ascending_snoc.
        -- apply ascending_ext with (f := fun a => firstIndex a p); [|assumption].
           intros a Ha. symmetry. apply firstIndex_app_in. now apply IHk.
        -- intros a Ha. apply IHk in Ha.
           rewrite (firstIndex_app_in a p [i] Ha).
           rewrite firstIndex_fresh.
           ++ now apply firstIndex_in_lt.
           ++ intros H. apply Hi. now apply IHk.
Qed.

(** The scan keeps the first entry that reaches the largest count. *)
Lemma pick_scan (m : CountMap) :
  forall b0 c0 : Z,
    let r := fold_left pick m (b0, c0) in
    (r = (b0, c0) /\ forall k c, In (k, c) m -> c <= c0) \/
    (exists m1 m2,
        m = m1 ++ r :: m2 /\ c0 < snd r /\
        (forall k c, In (k, c) m1 -> c < snd r) /\
        (forall k c, In (k, c) m2 -> c <= snd r)).
Proof.
  induction m as [|[k1 c1] m IH]; intros b0 c0; simpl.
  - left. split; [reflexivity|]. intros k c [].
  - destruct (c1 >? c0) eqn:E.
    + apply Z.gtb_lt in E.
      destruct (IH k1 c1) as [[-> H]|(m1 & m2 & Hm & Hc & H1 & H2)].
      * right. exists [], m. simpl. repeat split; auto.
        intros k c [].
      * right. exists ((k1, c1) :: m1), m2. simpl.
        repeat split; auto.
        -- now rewrite Hm at 1.
        -- lia.
        -- intros k c [H|H]; [inversion H; subst; assumption|eauto].
    + assert (c1 <= c0) by (destruct (Z.gtb_spec c1 c0); [discriminate|lia]).
      destruct (IH b0 c0) as [[-> H']|(m1 & m2 & Hm & Hc & H1 & H2)].
      * left. split; [reflexivity|].
        intros k c [Hk|Hk]; [inversion Hk; subst; assumption|eauto].
      * right. exists ((k1, c1) :: m1), m2. simpl.
        repeat split; auto.
        -- now rewrite Hm at 1.
        -- intros k c [Hk|Hk]; [inversion Hk; subst; lia|eauto].
Qed.

Lemma get_in (m : CountMap) (k c : Z) :
  NoDup (keys m) -> In (k, c) m -> get_or_zero m k = c.
Proof.
  unfold get_or_zero.
  induction m as [|[a v] m IH]; simpl; intros N H; [contradiction|].
  inversion N as [|? ? Ha N']; subst.
  destruct H as [H|H].
  - inversion H; subst. now rewrite Z.eqb_refl.
  - destruct (a =? k) eqn:E.
    + apply Z.eqb_eq in E. subst a. exfalso. apply Ha.
      change k with (fst (k, c)). now apply in_map.
    + now apply IH.
Qed.

Lemma in_keys (m : CountMap) (k : Z) :
  In k (keys m) -> exists c, In (k, c) m.
Proof.
  unfold keys. intros H. apply in_map_iff in H.
  destruct H as ([a c] & <- & H). now exists c.
Qed.

(** C5. [majority] answers null exactly on the empty history.  On any
    other history it answers a class of the history with the highest
    count, and among the classes with that count the one met first in the
    history.  On [0,1,0,1] it answers class 0. *)
Theorem majority_first_max :
  (forall h : list Z, majority h = None <-> h = []) /\
  (forall (h : list Z) (b : Z),
      majority h = Some b ->
      In b h /\
      (forall k, (occurrences k h <= occurrences b h)%nat) /\
      (forall k, k <> b -> occurrences k h = occurrences b h ->
                 (firstIndex b h < firstIndex k h)%nat)) /\
  majority [0; 1; 0; 1] = Some 0.
Proof.
  split; [|split].
  - intros [|x h]; simpl; split; intros H; congruence.
  - intros h b Hm.
    destruct h as [|x h]; [discriminate|]. unfold majority in Hm.
    injection Hm as Hb.
    set (hist := x :: h) in *. set (m := tally hist) in *.
    destruct (tally_inv hist) as (Hc & Hk & Ho). fold m in Hc, Hk, Ho.
    pose proof (ascending_NoDup _ _ Ho) as Hn.
    assert (Hpos : forall k c, In (k, c) m -> In k hist /\ c = Z.of_nat (occurrences k hist)).
    { intros k c H. split.
      - apply Hk. change k with (fst (k, c)). now apply in_map.
      - rewrite <- Hc. symmetry. now apply get_in. }
    destruct (pick_scan m (-1) (-1)) as [[_ H]|(m1 & m2 & Em & Hlt & H1 & H2)].
    + exfalso.
      assert (Hx : In x (keys m)) by (apply Hk; now left).
      destruct (in_keys _ _ Hx) as [c Hxc].
      specialize (H _ _ Hxc). destruct (Hpos _ _ Hxc) as [_ ->]. lia.
    + destruct (fold_left pick m (-1, -1)) as [b' c] eqn:Er.
      simpl in Hb, Hlt, H1, H2. subst b'.
      assert (Hbc : In (b, c) m) by (rewrite Em; apply in_elt).
      destruct (Hpos _ _ Hbc) as [Hbin Hcb].
      split; [assumption|]. split.
      * intros k.
        destruct (in_dec Z.eq_dec k hist) as [Hin|Hout].
        -- apply Hk in Hin. destruct (in_keys _ _ Hin) as [c' Hkc].
           destruct (Hpos _ _ Hkc) as [_ Hc'].
           rewrite Em in Hkc. apply in_app_or in Hkc.
           destruct Hkc as [Hkc|[Hkc|Hkc]].
           ++ specialize (H1 _ _ Hkc). lia.
           ++ inversion Hkc; subst. lia.
           ++ specialize (H2 _ _ Hkc). lia.
        -- unfold occurrences at 1.
           rewrite (proj1 (count_occ_not_In Z.eq_dec hist k) Hout). lia.
      * intros k Hne Htie.
        assert (Hin : In k hist).
        { apply (count_occ_In Z.eq_dec). fold (occurrences k hist).
          rewrite Htie. unfold occurrences.
          now apply (count_occ_In Z.eq_dec). }
        apply Hk in Hin. destruct (in_keys _ _ Hin) as [c' Hkc].
        destruct (Hpos _ _ Hkc) as [_ Hc'].
        rewrite Em in Hkc. apply in_app_or in Hkc.
        destruct Hkc as [Hkc|[Hkc|Hkc]].
        -- specialize (H1 _ _ Hkc). lia.
        -- inversion Hkc; subst. contradiction.
        -- apply (ascending_after (fun a => firstIndex a hist) (keys m1) (keys m2) b).
           ++ unfold keys in *. rewrite Em in Ho.
              now rewrite map_app in Ho.
           ++ unfold keys. change k with (fst (k, c')). now apply in_map.
  - reflexivity.
Qed.

End MajorityFacts.

(** ** One-hot labels *)
Section LabelFacts.

Import JS Worker Spec.
Local Open Scope R_scope.

Lemma total_zeros (k : nat) : total (repeat 0 k) = 0.
Proof. induction k as [|k IH]; simpl; [reflexivity|]. rewrite IH. lra. Qed.

Lemma countOnes_zeros (k : nat) : countOnes (repeat 0 k) = O.
Proof.
  unfold countOnes. induction k as [|k IH]; simpl; [reflexivity|].
  destruct (Req_dec_T 0 1); [lra|assumption].
Qed.

(** A row of [k] zeros with a 1 stored at an index below [k]. *)
Lemma one_hot_row (k : nat) :
  forall i : nat,
    (i < k)%nat ->
    let row := array_set 0 (filled k 0) i 1 in
    length row = k /\ total row = 1 /\ countOnes row = 1%nat /\
    forall j, nth j row 0 = if (j =? i)%nat then 1 else 0.
Proof.
  unfold filled.
  induction k as [|k IH]; intros i Hi; [lia|].
  destruct i as [|i]; simpl.
  - split; [now rewrite repeat_length|].
    split; [rewrite total_zeros; lra|].
    split.
    + unfold countOnes. simpl. destruct (Req_dec_T 1 1); [|lra].
      simpl. f_equal. apply countOnes_zeros.
    + intros [|j]; simpl; [reflexivity|].
      now rewrite nth_repeat.
  - destruct (IH i) as (Hl & Ht & Hc & Hn); [lia|].
    split; [now rewrite Hl|].
    split; [rewrite Ht; lra|].
    split.
    + unfold countOnes in *. simpl. destruct (Req_dec_T 0 1); [lra|assumption].
    + intros [|j]; simpl; [reflexivity|]. apply Hn.
Qed.

Lemma clampIndex_range (k : nat) (lab : Z) :
  (1 <= k)%nat -> (0 <= clampIndex k lab <= Z.of_nat k - 1)%Z.
Proof. unfold clampIndex. lia. Qed.

Lemma clampIndex_id (k : nat) (lab : Z) :
  (0 <= lab <= Z.of_nat k - 1)%Z -> clampIndex k lab = lab.
Proof. unfold clampIndex. lia. Qed.

(** C9. For class indices and a class count [k >= 1], [oneHotify] gives
    one row per label; each row has length [k], sums to 1 and has exactly
    one entry equal to 1 (the others are 0), at the index of the label
    clamped into [0, k-1]; an index already in range is kept.  Labels
    given as rows are returned unchanged. *)
Theorem oneHotify_rows (labs : list Z) (k : nat) (Hk : (1 <= k)%nat) :
  length (oneHotify (Indices labs) k) = length labs /\
  (forall (i : nat) (lab : Z),
      nth_error labs i = Some lab ->
      exists row,
        nth_error (oneHotify (Indices labs) k) i = Some row /\
        length row = k /\ total row = 1 /\ countOnes row = 1%nat /\
        (0 <= clampIndex k lab <= Z.of_nat k - 1)%Z /\
        ((0 <= lab <= Z.of_nat k - 1)%Z -> clampIndex k lab = lab) /\
        forall j, nth j row 0
                  = if (j =? Z.to_nat (clampIndex k lab))%nat then 1 else 0) /\
  (forall rows, oneHotify (Rows rows) k = rows).
Proof.
  assert (E : oneHotify (Indices labs) k
              = map (fun lab => array_set 0 (filled k 0)
                                          (Z.to_nat (clampIndex k lab)) 1) labs)
    by (destruct labs; reflexivity).
  split; [|split].
  - rewrite E. apply length_map.
  - intros i lab Hi. rewrite E.
    pose proof (clampIndex_range k lab Hk) as Hr.
    destruct (one_hot_row k (Z.to_nat (clampIndex k lab))) as (Hl & Ht & Hc & Hn);
      [lia|].
    eexists. split; [|repeat split].
    + rewrite nth_error_map, Hi. reflexivity.
    + exact Hl.
    + exact Ht.
    + exact Hc.
    + lia.
    + lia.
    + apply clampIndex_id.
    + exact Hn.
  - reflexivity.
Qed.

End LabelFacts.

(** ** The scaler *)
Section ScalerFacts.

Import JS Exn Loops Worker Spec.
Local Open Scope R_scope.

Lemma nth_map_R (f : R -> R) (l : list R) (j : nat) :
  (j < length l)%nat -> nth j (map f l) 0 = f (nth j l 0).
Proof.
  intros Hj. rewrite (nth_indep _ 0 (f 0)) by (now rewrite length_map).
  apply map_nth.
Qed.

Lemma nth_seq_map (f : nat -> R) (D j : nat) :
  (j < D)%nat -> nth j (map f (seq 0 D)) 0 = f j.
Proof.
  intros Hj.
  rewrite (nth_indep _ 0 (f O)) by (rewrite length_map, length_seq; exact Hj).
  rewrite map_nth. now rewrite seq_nth.
Qed.

Lemma addRow_length (D : nat) (g : nat -> R -> R) (acc row : list R) :
  length (addRow D g acc row) = D.
Proof. unfold addRow. now rewrite length_map, length_seq. Qed.

Lemma sumRows_length (D : nat) (g : nat -> R -> R) (rows : list (list R)) :
  length (sumRows D g rows) = D.
Proof.
  unfold sumRows.
  assert (H : forall acc, length acc = D ->
                          length (fold_left (addRow D g) rows acc) = D).
  { induction rows as [|r rows IH]; intros acc Ha; simpl; [exact Ha|].
    apply IH. apply addRow_length. }
  apply H. unfold zeros. apply repeat_length.
Qed.

(** Entry [j] of the double loop is the sum over the rows. *)
Lemma sumRows_nth (D : nat) (g : nat -> R -> R) (rows : list (list R)) (j : nat) :
  (j < D)%nat ->
  nth j (sumRows D g rows) 0 = total (map (g j) (column j rows)).
Proof.
  intros Hj. unfold sumRows.
  assert (H : forall acc,
             nth j (fold_left (addRow D g) rows acc) 0
             = nth j acc 0 + total (map (g j) (column j rows))).
  { induction rows as [|r rows IH]; intros acc; simpl.
    - lra.
    - rewrite IH. unfold addRow. rewrite nth_seq_map by exact Hj.
      lra. }
  rewrite H. unfold zeros. rewrite nth_repeat. lra.
Qed.

Lemma orElse_pos (v : R) : 0 <= v -> 0 < orElse v 1e-6.
Proof. intros Hv. unfold orElse. destruct (Req_dec_T v 0); lra. Qed.

Lemma orElse_zero (d : R) : orElse 0 d = d.
Proof. unfold orElse. destruct (Req_dec_T 0 0); [reflexivity|lra]. Qed.


(** C4, as the code has it. For a training set with at least one row, all
    rows as long as the first, [fitScaler] returns a scaler whose [mu] and
    [sigma] have one entry per dimension; every entry of [sigma] is
    strictly positive (never zero); with two rows or more it is the sample
    standard deviation of its column with the [n - 1] denominator, and
    1e-6 in its place when that deviation is zero; with a single row every
    entry is exactly 1e-6. *)
Theorem fitScaler_sigma_positive
        (x0 : list R) (rest : list (list R))
        (Hrect : Forall (fun r => length r = length x0) rest) :
  exists sc : Scaler,
    fitScaler (x0 :: rest) = Returned sc /\
    length (mu sc) = length x0 /\
    length (sigma sc) = length x0 /\
    Forall (fun s => 0 < s) (sigma sc) /\
    (forall j, (j < length x0)%nat ->
               nth j (mu sc) 0 = mean (column j (x0 :: rest))) /\
    (forall j, (j < length x0)%nat -> (2 <= length (x0 :: rest))%nat ->
               nth j (sigma sc) 0
               = orElse (sampleStd (column j (x0 :: rest))) 1e-6) /\
    (rest = [] -> sigma sc = repeat 1e-6 (length x0)).
Proof.
  eexists. split; [reflexivity|]. cbn [mu sigma].
  set (X := x0 :: rest). set (d := length x0).
  set (m := divEach (sumRows d (fun _ v => v) X) (length X)).
  assert (Hm : forall j, (j < d)%nat -> nth j m 0 = mean (column j X)).
  { intros j Hj. unfold m, divEach.
    rewrite nth_map_R by (rewrite sumRows_length; exact Hj).
    rewrite sumRows_nth by exact Hj.
    rewrite map_id. unfold mean, column. now rewrite length_map. }
  split; [unfold m, divEach; now rewrite length_map, sumRows_length|].
  split; [now rewrite length_map, sumRows_length|].
  split; [|split; [exact Hm|split]].
  - apply Forall_forall. intros s Hs. apply in_map_iff in Hs.
    destruct Hs as (v & <- & _). apply orElse_pos, sqrt_pos.
  - intros j Hj Hn.
    rewrite nth_map_R by (rewrite sumRows_length; exact Hj).
    rewrite sumRows_nth by exact Hj.
    fold m. unfold sampleStd. rewrite (Hm j Hj).
    assert (Hlen : length (column j X) = length X)
      by (unfold column; apply length_map).
    rewrite Hlen.
    unfold bessel. rewrite Rmax_right.
    + reflexivity.
    + apply le_INR in Hn. replace (INR 2) with 2 in Hn by (simpl; lra). lra.
  - intros ->. subst X m. simpl length.
    unfold sumRows at 1. simpl fold_left.
    apply nth_ext with (d := 0) (d' := 1e-6).
    + now rewrite length_map, addRow_length, repeat_length.
    + intros j Hj. rewrite length_map, addRow_length in Hj.
      rewrite nth_map_R by (rewrite addRow_length; exact Hj).
      unfold addRow. rewrite nth_seq_map by exact Hj.
      unfold zeros. rewrite !nth_repeat.
      unfold divEach.
      rewrite nth_map_R by (rewrite sumRows_length; exact Hj).
      unfold sumRows. simpl fold_left.
      unfold addRow. rewrite nth_seq_map by exact Hj.
      unfold zeros. rewrite nth_repeat. simpl INR.
      replace ((0 + (nth j x0 0 - (0 + nth j x0 0) / 1)
                    * (nth j x0 0 - (0 + nth j x0 0) / 1)) / bessel 1)
        with 0.
      * rewrite sqrt_0. apply orElse_zero.
      * unfold bessel. simpl INR. rewrite Rmax_left by lra. field.
Qed.

End ScalerFacts.

Section ScalerExamples.

Import JS Exn Loops Worker Spec.
Local Open Scope R_scope.

Lemma orElse_nonzero (v d : R) : v <> 0 -> orElse v d = v.
Proof. intros H. unfold orElse. destruct (Req_dec_T v 0); [contradiction|reflexivity]. Qed.

(** Three rows 0, 1e-7, 2e-7 in one dimension: the mean is 1e-7, the
    squared deviations sum to 2e-14, over [n - 1 = 2] that is 1e-14, whose
    root 1e-7 is not zero and is kept: an entry of [sigma] below 1e-6. *)
Lemma fitScaler_sigma_below_epsilon :
  fitScaler [[0]; [1e-7]; [2e-7]] = Returned (mkScaler [1e-7] [1e-7]) /\
  ~ Forall (fun s => 1e-6 <= s) [1e-7].
Proof.
  split.
  - unfold fitScaler, divEach, sumRows, addRow, zeros, bessel. simpl.
    replace ((0 + 0 + 1e-7 + 2e-7) / (1 + 1 + 1)) with 1e-7 by lra.
    rewrite Rmax_right by lra.
    replace ((0 + (0 - 1e-7) * (0 - 1e-7) + (1e-7 - 1e-7) * (1e-7 - 1e-7)
              + (2e-7 - 1e-7) * (2e-7 - 1e-7)) / (1 + 1 + 1 - 1))
      with (1e-7 * 1e-7) by lra.
    rewrite sqrt_square by lra.
    rewrite orElse_nonzero by lra.
    reflexivity.
  - intros H. inversion H as [|? ? H1 _]; subst. lra.
Qed.

(** A training set to apply the scaler's theorem to. *)
Lemma fitScaler_sigma_positive_witness :
  exists sc : Scaler,
    fitScaler [[1; 2]; [3; 5]] = Returned sc /\
    length (mu sc) = 2%nat /\
    length (sigma sc) = 2%nat /\
    Forall (fun s => 0 < s) (sigma sc) /\
    (forall j, (j < 2)%nat ->
               nth j (mu sc) 0 = mean (column j [[1; 2]; [3; 5]])) /\
    (forall j, (j < 2)%nat -> (2 <= 2)%nat ->
               nth j (sigma sc) 0
               = orElse (sampleStd (column j [[1; 2]; [3; 5]])) 1e-6) /\
    ([[3; 5]] = [] -> sigma sc = repeat 1e-6 2).
Proof.
  apply (fitScaler_sigma_positive [1; 2] [[3; 5]]).
  repeat constructor.
Defined.

End ScalerExamples.

(** ** The boundary's protocol *)
Section BoundaryFacts.

Import JS Exn Loops Worker Spec.
Local Open Scope string_scope.

Variable L : Library.

Lemma serve_cons (st : State L) (e : InMsg L) (rest : list (InMsg L)) :
  serve st (e :: rest)
  = (fst (serve (fst (onmessage st e)) rest),
     snd (onmessage st e) :: snd (serve (fst (onmessage st e)) rest)).
Proof.
  simpl. destruct (onmessage st e) as [st1 r]. simpl.
  destruct (serve st1 rest). reflexivity.
Qed.

(** C7. A request whose action is none of init, train, predict, export,
    import, reset is answered with [ok: false], the request's id and the
    message "Unknown action: " followed by the action, which is not
    empty; model and scaler stay as they were; the requests that follow,
    a predict among them, are answered as if the unknown one had never
    been sent. *)
Theorem unknown_action_reported
        (st : State L) (e : InMsg L)
        (Hun : knownAction (action e) = false) :
  let r := @mkResponse L (id e) false None
                       (Some (String.append "Unknown action: " (action e))) in
  onmessage st e = (st, r) /\
  String.append "Unknown action: " (action e) <> "" /\
  (forall rest : list (InMsg L),
      serve st (e :: rest) = (fst (serve st rest), r :: snd (serve st rest))) /\
  (forall (i : String.string) (x : list R),
      snd (onmessage (fst (onmessage st e)) (predictRequest L i x))
      = snd (onmessage st (predictRequest L i x))).
Proof.
  intros r.
  assert (E : onmessage st e = (st, r)).
  { unfold knownAction in Hun. simpl in Hun.
    repeat (apply orb_false_elim in Hun; destruct Hun as [? Hun]).
    unfold onmessage.
    repeat match goal with
           | H : String.eqb _ _ = false |- _ => rewrite H; clear H
           end.
    reflexivity. }
  split; [exact E|]. split; [discriminate|]. split.
  - intros rest. rewrite serve_cons, E. reflexivity.
  - intros i x. rewrite E. reflexivity.
Qed.


Lemma fail_shape (st : State L) (i msg : String.string) :
  fst (fail st i msg) = st /\
  rid (snd (fail st i msg)) = i /\ ok (snd (fail st i msg)) = false /\
  exists m, error (snd (fail st i msg)) = Some m.
Proof. unfold fail. simpl. repeat split. eexists. reflexivity. Qed.

Lemma afterTraining_shape (sc : Scaler) (i : String.string) (e : Effect (Model L)) :
  let r := afterTraining L sc i e in
  rid (snd r) = i /\
  scaler (fst r) = Some sc /\
  (exists m, model (fst r) = Some m) /\
  (ok (snd r) = false -> exists m, error (snd r) = Some m).
Proof.
  destruct e as [m|m msg]; simpl; repeat split; eauto; discriminate.
Qed.




End BoundaryFacts.

(** ** The boundary run on the small library *)
Section BoundaryExamples.

Import JS Exn Loops Worker Spec.
Local Open Scope string_scope.


(** "frobnicate" sent to a trained boundary. *)
Lemma unknown_action_reported_witness :
  knownAction (action Toy.unknownMsg) = false /\
  onmessage Toy.trained Toy.unknownMsg
  = (Toy.trained,
     @mkResponse Toy.lib "u1" false None (Some "Unknown action: frobnicate")).
Proof.
  split; [reflexivity|].
  exact (proj1 (unknown_action_reported Toy.lib Toy.trained Toy.unknownMsg eq_refl)).
Defined.





End BoundaryExamples.

(** ** Frame size *)
Section FrameSizeFacts.

Import JS Exn Loops Mfcc Spec.
Local Open Scope Z_scope.

Lemma shift_count (n : Z) : 0 <= Z.land n 31 < 32.
Proof.
  change 31 with (Z.ones 5). rewrite Z.land_ones by lia.
  apply Z.mod_pos_bound. lia.
Qed.

Lemma small_cases (P : Z -> Prop) :
  (forall k, (k < 32)%nat -> P (Z.of_nat k)) ->
  forall z, 0 <= z < 32 -> P z.
Proof.
  intros H z Hz. rewrite <- (Z2Nat.id z) by lia. apply H. lia.
Qed.

(** [1 << n], clamped, is one of the five frame sizes. *)
Lemma clamped_shl (n : Z) : In (clamped (shl 1 n)) frameSizes.
Proof.
  unfold shl. generalize (shift_count n). generalize (Z.land n 31).
  apply (small_cases (fun z => In (clamped (toInt32 (Z.shiftl (toInt32 1) z))) frameSizes)).
  intros k Hk.
  do 32 (destruct k as [|k]; [vm_compute; tauto|]). lia.
Qed.

Lemma pickFrameSize_in (sampleRate : R) :
  In (pickFrameSize sampleRate) frameSizes.
Proof.
  unfold pickFrameSize.
  match goal with
  | |- context [if ltb ?a ?b then ?u else ?l] =>
      destruct (ltb a b)
  end; apply clamped_shl.
Qed.

Lemma frameSize_facts (fs : Z) :
  In fs frameSizes ->
  (exists k, 8 <= k <= 12 /\ fs = 2 ^ k) /\
  256 <= fs <= 4096 /\
  isPowerOfTwo fs = true /\
  128 <= fs / 2.
Proof.
  unfold frameSizes. simpl.
  intros [<-|[<-|[<-|[<-|[<-|[]]]]]].
  - split; [exists 8; split; [lia|reflexivity]|]. repeat split; try lia; vm_compute; congruence.
  - split; [exists 9; split; [lia|reflexivity]|]. repeat split; try lia; vm_compute; congruence.
  - split; [exists 10; split; [lia|reflexivity]|]. repeat split; try lia; vm_compute; congruence.
  - split; [exists 11; split; [lia|reflexivity]|]. repeat split; try lia; vm_compute; congruence.
  - split; [exists 12; split; [lia|reflexivity]|]. repeat split; try lia; vm_compute; congruence.
Qed.

(** *** The frame size at usual sample rates *)

Lemma floor_between (x : R) (z : Z) :
  (IZR z <= x < IZR z + 1)%R -> Math_floor x = z.
Proof.
  intros H. unfold Math_floor. symmetry. apply Int_part_spec. lra.
Qed.

Lemma ceil_between (x : R) (z : Z) :
  (IZR z - 1 < x <= IZR z)%R -> Math_ceil x = z.
Proof.
  intros H. unfold Math_ceil.
  rewrite <- (Int_part_spec (- x) (- z)); [lia|].
  rewrite opp_IZR. lra.
Qed.

Lemma ln2_pos : (0 < ln 2)%R.
Proof. pose proof ln_lt_2. lra. Qed.

(** [Math.log2] of a number strictly between two powers of two. *)
Lemma log2_between (x : R) (k : nat) :
  (2 ^ k < x < 2 ^ S k)%R ->
  (INR k < Math_log2 x < INR k + 1)%R.
Proof.
  intros [Hlo Hhi]. unfold Math_log2.
  assert (Hp : (0 < 2 ^ k)%R) by (apply pow_lt; lra).
  pose proof ln2_pos as H2.
  pose proof (ln_increasing _ _ Hp Hlo) as L1.
  assert (Hx : (0 < x)%R) by lra.
  pose proof (ln_increasing _ _ Hx Hhi) as L2.
  rewrite ln_pow in L1 by lra. rewrite ln_pow in L2 by lra.
  rewrite S_INR in L2.
  split.
  - apply (Rmult_lt_reg_r (ln 2)); [exact H2|].
    unfold Rdiv. rewrite Rmult_assoc, Rinv_l by lra. lra.
  - apply (Rmult_lt_reg_r (ln 2)); [exact H2|].
    unfold Rdiv. rewrite Rmult_assoc, Rinv_l by lra. lra.
Qed.

(** The frame size for a sample rate whose 25 ms lie strictly between
    [2^k] and [2^(k+1)] samples: the nearer of the two, clamped. *)
Lemma pickFrameSize_between (sampleRate : R) (target : Z) (k : nat) :
  (IZR target <= 0.025 * sampleRate < IZR target + 1)%R ->
  (2 ^ k < IZR target < 2 ^ S k)%R ->
  pickFrameSize sampleRate
  = clamped (if ltb (Rabs (IZR (shl 1 (Z.of_nat k + 1)) - IZR target))
                    (Rabs (IZR (shl 1 (Z.of_nat k)) - IZR target))
             then shl 1 (Z.of_nat k + 1) else shl 1 (Z.of_nat k)).
Proof.
  intros Ht Hk. unfold pickFrameSize.
  rewrite (floor_between _ target Ht).
  assert (H1 : (1 <= IZR target)%R).
  { assert (Hp : (1 <= 2 ^ k)%R) by (apply pow_R1_Rle; lra). lra. }
  rewrite Rmax_right by exact H1.
  destruct (log2_between _ k Hk) as [La Lb].
  rewrite (floor_between _ (Z.of_nat k)) by (rewrite <- INR_IZR_INZ; lra).
  rewrite (ceil_between _ (Z.of_nat k + 1))
    by (rewrite plus_IZR, <- INR_IZR_INZ; lra).
  reflexivity.
Qed.

Lemma pickFrameSize_44100 : pickFrameSize 44100 = 1024.
Proof.
  rewrite (pickFrameSize_between 44100 1102 10) by (simpl; lra).
  change (shl 1 (Z.of_nat 10 + 1)) with 2048.
  change (shl 1 (Z.of_nat 10)) with 1024.
  rewrite (proj2 (ltb_false _ _)); [reflexivity|].
  rewrite (Rabs_pos_eq (2048 - 1102)), (Rabs_left (1024 - 1102)) by lra. lra.
Qed.

Lemma pickFrameSize_16000 : pickFrameSize 16000 = 512.
Proof.
  rewrite (pickFrameSize_between 16000 400 8) by (simpl; lra).
  change (shl 1 (Z.of_nat 8 + 1)) with 512.
  change (shl 1 (Z.of_nat 8)) with 256.
  rewrite (proj2 (ltb_true _ _)); [reflexivity|].
  rewrite (Rabs_pos_eq (512 - 400)), (Rabs_left (256 - 400)) by lra. lra.
Qed.

End FrameSizeFacts.

(** ** The feature extractor *)
Section ExtractFacts.

Import JS Exn Loops Mfcc Spec.
Local Open Scope Z_scope.

Variable meyda : R -> Z -> list R -> option (list R).

Lemma collect_cases (sr : R) (fs : Z) (frame : list R) (acc : list (list R)) :
  collect meyda sr fs frame acc = acc \/
  exists mf, meyda sr fs frame = Some mf /\ mf <> [] /\
             collect meyda sr fs frame acc = acc ++ [mf].
Proof.
  unfold collect. destruct (meyda sr fs frame) as [mf|]; [|now left].
  destruct mf as [|c mf]; simpl; [now left|].
  right. eexists. split; [reflexivity|]. split; [discriminate|reflexivity].
Qed.

Lemma collect_rows (sr : R) (fs : Z) (frame : list R) (acc : list (list R)) :
  thirteen meyda ->
  Forall (fun mf => length mf = 13%nat) acc ->
  Forall (fun mf => length mf = 13%nat) (collect meyda sr fs frame acc).
Proof.
  intros H13 Hacc.
  destruct (collect_cases sr fs frame acc) as [->|(mf & Hm & Hne & ->)]; [assumption|].
  apply Forall_app. split; [assumption|].
  constructor; [|constructor]. eapply H13; eassumption.
Qed.

Lemma collect_none (sr : R) (fs : Z) (frame : list R) (acc : list (list R)) :
  noCoefficients meyda sr fs -> collect meyda sr fs frame acc = acc.
Proof.
  intros Hn. unfold collect. destruct (Hn frame) as [->| ->]; reflexivity.
Qed.

Lemma slide_any_fuel (sr : R) (fs hop : Z) (sig : list R) :
  1 <= hop -> 0 <= fs ->
  forall (f1 f2 : nat) (i : Z) (acc : list (list R)),
    (need (length sig) i <= f1)%nat -> (need (length sig) i <= f2)%nat ->
    slide meyda f1 sr fs hop sig i acc = slide meyda f2 sr fs hop sig i acc.
Proof.
  intros Hhop Hfs. unfold need.
  induction f1 as [|f1 IH]; intros f2 i acc H1 H2.
  - destruct f2; simpl;
      destruct (i + fs <=? Z.of_nat (length sig)) eqn:E; try reflexivity;
      apply Z.leb_le in E; lia.
  - destruct f2; simpl;
      destruct (i + fs <=? Z.of_nat (length sig)) eqn:E; try reflexivity;
      apply Z.leb_le in E; [lia|].
    apply IH; lia.
Qed.

Lemma slide_returns (sr : R) (fs hop : Z) (sig : list R) :
  1 <= hop -> 0 <= fs ->
  forall (f : nat) (i : Z) (acc : list (list R)),
    (need (length sig) i <= f)%nat ->
    exists out,
      slide meyda f sr fs hop sig i acc = Some out /\
      (thirteen meyda -> Forall (fun mf => length mf = 13%nat) acc ->
       Forall (fun mf => length mf = 13%nat) out) /\
      (noCoefficients meyda sr fs -> out = acc).
Proof.
  intros Hhop Hfs. unfold need.
  induction f as [|f IH]; intros i acc Hf; simpl;
    destruct (i + fs <=? Z.of_nat (length sig)) eqn:E;
    try (exists acc; repeat split; auto; fail).
  - apply Z.leb_le in E. lia.
  - apply Z.leb_le in E.
    destruct (IH (i + hop)
                 (collect meyda sr fs
                          (subarray sig (Z.to_nat i) (Z.to_nat (i + fs))) acc))
      as (out & Ho & H13 & Hn); [lia|].
    exists out. split; [exact Ho|]. split.
    + intros T Hacc. apply H13; [exact T|]. now apply collect_rows.
    + intros N. rewrite (Hn N). now apply collect_none.
Qed.

Lemma zeros_length (n : nat) : length (zeros n) = n.
Proof. apply repeat_length. Qed.

Lemma aggregate_length (mfccs : list (list R)) :
  length (aggregate mfccs) = (2 * length (hd [] mfccs))%nat.
Proof.
  unfold aggregate. rewrite length_app. unfold divEach.
  rewrite !length_map, !sumRows_length. lia.
Qed.

Lemma normalize_length (x : list R) : length (normalize x) = length x.
Proof.
  unfold normalize. destruct (ltb _ _); [reflexivity|apply length_map].
Qed.

Lemma subarray_length (x : list R) (b e : nat) :
  (length (subarray x b e) <= length x)%nat.
Proof.
  unfold subarray. rewrite length_firstn, length_skipn. lia.
Qed.

Lemma trimSilence_length (x : list R) (thr : R) :
  (length (trimSilence x thr) <= length x)%nat.
Proof. unfold trimSilence. apply subarray_length. Qed.

Lemma finish_returns (sr : R) (fs : Z) (sig : list R) :
  In fs frameSizes -> thirteen meyda ->
  exists v,
    length v = 26%nat /\
    (forall fuel, (length sig + 1 <= fuel)%nat ->
                  framesToFeatures meyda fuel sr fs sig = Some (Returned v)) /\
    (noCoefficients meyda sr fs -> v = zeros 26).
Proof.
  intros Hin T.
  destruct (frameSize_facts fs Hin) as (_ & Hr & Hp & Hh).
  unfold framesToFeatures. cbv zeta. rewrite Hp. simpl negb. cbv iota.
  destruct (Z.of_nat (length sig) <? fs) eqn:Es.
  { exists (zeros 26). repeat split; auto. }
  destruct (slide_returns sr fs (fs / 2) sig) with (f := S (length sig)) (i := 0)
                                                  (acc := @nil (list R))
    as (out & Ho & H13 & Hn); [lia|lia|unfold need; lia|].
  assert (Hfuel : forall fuel, (length sig + 1 <= fuel)%nat ->
                               slide meyda fuel sr fs (fs / 2) sig 0 [] = Some out).
  { intros fuel Hf. rewrite <- Ho.
    apply slide_any_fuel; try lia; unfold need; lia. }
  specialize (H13 T (Forall_nil _)).
  set (frame := subarray sig (Z.to_nat (Z.of_nat (length sig) - fs)) (length sig)).
  set (rows := match out with
               | [] => collect meyda sr fs frame []
               | _ => out
               end).
  assert (Hrows : Forall (fun mf => length mf = 13%nat) rows).
  { subst rows. destruct out; [|assumption].
    apply collect_rows; [exact T|constructor]. }
  assert (Hnone : noCoefficients meyda sr fs -> rows = []).
  { intros N. subst rows. rewrite (Hn N). now apply collect_none. }
  destruct rows as [|mf0 rest] eqn:Er.
  - exists (zeros 26). split; [apply zeros_length|]. split; [|reflexivity].
    intros fuel Hf. rewrite (Hfuel fuel Hf). fold frame. fold rows.
    rewrite Er. reflexivity.
  - inversion Hrows as [|? ? H0 _]; subst.
    exists (aggregate (mf0 :: rest)). split; [|split].
    + rewrite aggregate_length. simpl. rewrite H0. reflexivity.
    + intros fuel Hf. rewrite (Hfuel fuel Hf). fold frame. fold rows.
      rewrite Er. rewrite H0. reflexivity.
    + intros N. specialize (Hnone N). discriminate.
Qed.

(** Length of the signal the frames are cut from. *)
Lemma padded_length (sig : list R) (fs : Z) :
  Z.of_nat (length sig) < fs ->
  let copyLen := Z.min (Z.of_nat (length sig)) fs in
  (length (zeros (Z.to_nat (fs - copyLen))
           ++ subarray sig (Z.to_nat (Z.of_nat (length sig) - copyLen))
                       (length sig))
   <= Z.to_nat fs)%nat.
Proof.
  intros Hs. cbv zeta. rewrite length_app, zeros_length.
  pose proof (subarray_length sig
                (Z.to_nat (Z.of_nat (length sig)
                           - Z.min (Z.of_nat (length sig)) fs))
                (length sig)).
  lia.
Qed.

(** C2. Whatever the window (empty and shorter than a frame included),
    the sample rate and the options: the frame size is a power of two
    between 256 and 4096, so the power-of-two check passes and the
    internal error is never thrown; the frame loop ends; and the extractor
    returns a vector of 26 entries, the all-zero one when no frame yields
    coefficients.  The coefficient routine is a black box outside the
    repository: [H13] is its contract, 13 coefficients per frame. *)
Theorem extract_returns_26
        (H13 : thirteen meyda)
        (float32 : list R) (sampleRate : R) (opts : MFCCOptions) :
  (exists k, 8 <= k <= 12 /\ pickFrameSize sampleRate = 2 ^ k) /\
  256 <= pickFrameSize sampleRate <= 4096 /\
  isPowerOfTwo (pickFrameSize sampleRate) = true /\
  exists v : list R,
    length v = 26%nat /\
    (forall fuel : nat,
        (length float32 + 4097 <= fuel)%nat ->
        extractFeaturesMonoFloat32 meyda fuel float32 sampleRate opts
        = Some (Returned v)) /\
    (noCoefficients meyda sampleRate (pickFrameSize sampleRate) -> v = zeros 26).
Proof.
  pose proof (pickFrameSize_in sampleRate) as Hin.
  destruct (frameSize_facts _ Hin) as (Hk & Hr & Hp & Hh).
  split; [exact Hk|]. split; [exact Hr|]. split; [exact Hp|].
  unfold extractFeaturesMonoFloat32. cbv zeta.
  set (fs := pickFrameSize sampleRate) in *.
  set (norm := normalize float32).
  set (trimmed := trimSilence norm (default (trimThreshold opts) 0.003%R)).
  set (sig1 := if (Z.of_nat (length trimmed) <? fs)
                    && default (allowUntrimFallback opts) true
               then norm else trimmed).
  set (sig2 := if (Z.of_nat (length sig1) <? fs)
                    && default (padToFrame opts) true
               then _ else sig1).
  assert (L1 : (length sig1 <= length float32)%nat).
  { pose proof (trimSilence_length norm (default (trimThreshold opts) 0.003%R)) as Ht.
    pose proof (normalize_length float32) as Hn. fold norm in Hn. fold trimmed in Ht.
    unfold sig1.
    destruct ((Z.of_nat (length trimmed) <? fs)
              && default (allowUntrimFallback opts) true); lia. }
  assert (L2 : (length sig2 + 1 <= length float32 + 4097)%nat).
  { unfold sig2. destruct (Z.of_nat (length sig1) <? fs) eqn:E; simpl andb.
    - destruct (default (padToFrame opts) true); [|lia].
      apply Z.ltb_lt in E. pose proof (padded_length sig1 fs E) as P.
      cbv zeta in P. lia.
    - lia. }
  destruct (finish_returns sampleRate fs sig2 Hin H13) as (v & Hv & Hf & Hn).
  exists v. split; [exact Hv|]. split; [|exact Hn].
  intros fuel Hfuel. apply Hf. lia.
Qed.

End ExtractFacts.

(** ** The extractor run on the empty window *)
Section ExtractExamples.

Import JS Exn Loops Mfcc Spec.
Local Open Scope R_scope.

Lemma normalize_nil : normalize [] = [].
Proof. unfold normalize. simpl. destruct (ltb _ _); reflexivity. Qed.

(** With padding off an empty window makes no frame: the zero vector. *)
Lemma extract_empty_unpadded (fuel : nat) :
  extractFeaturesMonoFloat32 Toy.meyda fuel [] 44100
                             (mkOpts None None (Some false))
  = Some (Returned (zeros 26)).
Proof.
  unfold extractFeaturesMonoFloat32. cbv zeta.
  rewrite pickFrameSize_44100, normalize_nil. reflexivity.
Qed.

(** With the defaults the empty window is padded to one frame of 1024
    zeros; the stand-in routine answers 13 ones for it; one frame gives
    the means 1 and the deviations 0. *)
Lemma extract_empty_padded (fuel : nat) :
  (2 <= fuel)%nat ->
  extractFeaturesMonoFloat32 Toy.meyda fuel [] 44100 (mkOpts None None None)
  = Some (Returned (repeat 1 13 ++ repeat 0 13)).
Proof.
  intros Hf. destruct fuel as [|[|fuel]]; try lia.
  unfold extractFeaturesMonoFloat32. cbv zeta.
  rewrite pickFrameSize_44100, normalize_nil.
  unfold framesToFeatures, Toy.meyda, aggregate, divEach, sumRows, addRow, bessel.
  simpl.
  replace ((0 + 1) / 1) with 1 by lra.
  replace ((0 + (1 - 1) * (1 - 1)) / Rmax 1 (1 - 1)) with 0
    by (rewrite Rmax_left by lra; lra).
  rewrite sqrt_0. reflexivity.
Qed.

End ExtractExamples.

(** ** The loop run on concrete ticks *)
Section LoopExamples.

Import JS Main Spec.
Local Open Scope R_scope.

Lemma gtb_false (x y : R) : gtb x y = false <-> x <= y.
Proof.
  unfold gtb. destruct (Rgt_dec x y); split; intros; try congruence; try lra.
Qed.

(** Decide the comparisons of concrete numbers in the goal. *)
Ltac r_decide :=
  repeat match goal with
         | |- context [geb ?a ?b] =>
             first [ rewrite (proj2 (geb_true a b)) by lra
                   | rewrite (proj2 (geb_false a b)) by lra ]
         | |- context [gtb ?a ?b] =>
             first [ rewrite (proj2 (gtb_true a b)) by lra
                   | rewrite (proj2 (gtb_false a b)) by lra ]
         end.

Lemma ceil_IZR (z : Z) : Math_ceil (IZR z) = z.
Proof.
  unfold Math_ceil. rewrite <- opp_IZR.
  rewrite <- (Int_part_spec (IZR (- z)) (- z)); [lia|].
  split; lra.
Qed.

Lemma window_one (v : R) : lastWindow 44100 [v] = [v].
Proof.
  unfold lastWindow. replace (0.8 * 44100) with (IZR 35280) by lra.
  rewrite ceil_IZR. reflexivity.
Qed.

Lemma rms_one : rms [1] = 1.
Proof.
  unfold rms. simpl. rewrite Rmax_left by lra.
  replace ((0 + 1 * 1) / 1) with 1 by lra. apply sqrt_1.
Qed.

Lemma nonZero_one : nonZero [1] = true.
Proof. unfold nonZero. simpl. destruct (Req_dec_T 1 0); [lra|reflexivity]. Qed.

(** A confident "left": votes [0], majority 0; the command goes out only
    if the flag is down. *)
Lemma decide_left (ls : option Label) (fired : bool) :
  decide (mkLoop true [] true ls fired) Toy.loudLeft
  = if fired then (mkLoop true [0%Z] true ls true, None)
    else (mkLoop true [0%Z] true (Some LEFT) true, Some LEFT).
Proof.
  unfold decide, Toy.loudLeft. simpl feats. simpl reply.
  rewrite nonZero_one. simpl.
  replace (0 + 0.9 + 0.1) with 1 by lra.
  unfold argmax, above, confident, CONF_THRESHOLD. simpl. r_decide. simpl.
  unfold above. r_decide.
  destruct fired; reflexivity.
Qed.

Lemma decide_left_again (ls : option Label) :
  decide (mkLoop true [0%Z] true ls true) Toy.loudLeft
  = (mkLoop true [0%Z; 0%Z] true ls true, None).
Proof.
  unfold decide, Toy.loudLeft. simpl feats. simpl reply.
  rewrite nonZero_one. simpl.
  replace (0 + 0.9 + 0.1) with 1 by lra.
  unfold argmax, above, confident, CONF_THRESHOLD. simpl. r_decide. simpl.
  unfold above. r_decide. reflexivity.
Qed.

Lemma decide_right (ls : option Label) :
  decide (mkLoop true [] true ls false) Toy.loudRight
  = (mkLoop true [1%Z] true (Some RIGHT) true, Some RIGHT).
Proof.
  unfold decide, Toy.loudRight. simpl feats. simpl reply.
  rewrite nonZero_one. simpl.
  replace (0 + 0.1 + 0.9) with 1 by lra.
  unfold argmax, above, confident, CONF_THRESHOLD. simpl. r_decide. simpl.
  unfold above. r_decide. reflexivity.
Qed.

(** The gate on the concrete windows. *)
Lemma gate_loud (st : Loop) (t : Tick) :
  captureBuf t = [[1]] ->
  gate true 44100 st t
  = if inSpeech st then mkGated st false true
    else mkGated (resetVotes (set_inSpeech true st)) true true.
Proof.
  intros Hb. unfold gate. rewrite Hb. simpl takeCapturedMono.
  rewrite window_one, rms_one. unfold speechNow, VAD_ENTER, VAD_EXIT.
  destruct (inSpeech st); r_decide; reflexivity.
Qed.

Lemma gate_silent (st : Loop) :
  gate true 44100 st Toy.silent
  = if inSpeech st then mkGated (set_inSpeech false st) false false
    else mkGated st false false.
Proof.
  unfold gate, Toy.silent. simpl takeCapturedMono.
  rewrite lastWindow_nil, rms_nil. unfold speechNow, VAD_ENTER, VAD_EXIT.
  destruct (inSpeech st); r_decide; reflexivity.
Qed.

(** Two utterances: "left" held for two ticks, a pause, then "right". *)
Lemma two_utterances :
  run true 44100 Toy.listening
      [Toy.loudLeft; Toy.loudLeft; Toy.silent; Toy.loudRight]
  = [mkOut true (Some LEFT); mkOut false None; mkOut false None;
     mkOut true (Some RIGHT)].
Proof.
  unfold run, Toy.listening.
  (* first tick: Silence -> Speech, votes cleared, LEFT dispatched *)
  assert (E1 : livePredictTick true 44100 (mkLoop true [] false None false) Toy.loudLeft
               = (mkLoop true [0%Z] true (Some LEFT) true, mkOut true (Some LEFT))).
  { unfold livePredictTick. rewrite (gate_loud _ Toy.loudLeft eq_refl). simpl.
    unfold resetVotes, set_inSpeech. simpl.
    now rewrite (decide_left None false). }
  (* second tick: still speech, flag up, nothing dispatched *)
  assert (E2 : livePredictTick true 44100 (mkLoop true [0%Z] true (Some LEFT) true)
                               Toy.loudLeft
               = (mkLoop true [0%Z; 0%Z] true (Some LEFT) true, mkOut false None)).
  { unfold livePredictTick. rewrite (gate_loud _ Toy.loudLeft eq_refl). simpl.
    now rewrite (decide_left_again (Some LEFT)). }
  (* third tick: empty buffer, Speech -> Silence *)
  assert (E3 : livePredictTick true 44100 (mkLoop true [0%Z; 0%Z] true (Some LEFT) true)
                               Toy.silent
               = (mkLoop true [0%Z; 0%Z] false (Some LEFT) true, mkOut false None)).
  { unfold livePredictTick. rewrite gate_silent. reflexivity. }
  (* fourth tick: Silence -> Speech again, RIGHT dispatched *)
  assert (E4 : livePredictTick true 44100 (mkLoop true [0%Z; 0%Z] false (Some LEFT) true)
                               Toy.loudRight
               = (mkLoop true [1%Z] true (Some RIGHT) true, mkOut true (Some RIGHT))).
  { unfold livePredictTick. rewrite (gate_loud _ Toy.loudRight eq_refl). simpl.
    unfold resetVotes, set_inSpeech. simpl.
    now rewrite (decide_right (Some LEFT)). }
  cbn [trace]. rewrite E1. cbn [fst snd]. rewrite E2. cbn [fst snd].
  rewrite E3. cbn [fst snd]. rewrite E4. reflexivity.
Qed.

End LoopExamples.

(** ** The theorems at concrete inputs *)
Section Witnesses.

Import JS Exn Loops Main Mfcc Worker Spec.
Local Open Scope R_scope.


Lemma two_utterances_two_commands :
  commands (run true 44100 Toy.listening
                [Toy.loudLeft; Toy.loudLeft; Toy.silent; Toy.loudRight]) = 2%nat /\
  onsets (run true 44100 Toy.listening
              [Toy.loudLeft; Toy.loudLeft; Toy.silent; Toy.loudRight]) = 2%nat.
Proof. rewrite two_utterances. split; reflexivity. Qed.

(** The gate on a loud window, from Silence. *)
Lemma vad_gate_hysteresis_witness :
  let st := Toy.listening in
  let t := Toy.loudLeft in
  let e := rms (lastWindow 44100 (takeCapturedMono (captureBuf t))) in
  let gated := fst (livePredictTick true 44100 st t) in
  let ungated := fst (livePredictTick false 44100 st t) in
  VAD_ENTER = 0.005 /\ VAD_EXIT = 0.003 /\ VAD_EXIT < VAD_ENTER /\
  (inSpeech st = false -> (inSpeech gated = true <-> e >= VAD_ENTER)) /\
  (inSpeech st = true -> (inSpeech gated = false <-> e < VAD_EXIT)) /\
  (VAD_EXIT <= e < VAD_ENTER -> inSpeech gated = inSpeech st) /\
  inSpeech ungated = true /\
  (forall inSp x, speechNow false inSp x = true).
Proof.
  exact (vad_gate_hysteresis 44100 Toy.listening Toy.loudLeft eq_refl).
Defined.

(** Labels 0, 1, 5 and -2 for two classes: 5 is clamped to 1, -2 to 0. *)
Lemma oneHotify_clamps :
  oneHotify (Indices [0; 1; 5; -2]%Z) 2 = [[1; 0]; [0; 1]; [0; 1]; [1; 0]].
Proof. reflexivity. Qed.

Lemma oneHotify_rows_witness :
  length (oneHotify (Indices [0; 1; 5; -2]%Z) 2) = 4%nat /\
  (forall (i : nat) (lab : Z),
      nth_error [0; 1; 5; -2]%Z i = Some lab ->
      exists row,
        nth_error (oneHotify (Indices [0; 1; 5; -2]%Z) 2) i = Some row /\
        length row = 2%nat /\ total row = 1 /\ countOnes row = 1%nat /\
        (0 <= clampIndex 2 lab <= Z.of_nat 2 - 1)%Z /\
        ((0 <= lab <= Z.of_nat 2 - 1)%Z -> clampIndex 2 lab = lab) /\
        forall j, nth j row 0
                  = if (j =? Z.to_nat (clampIndex 2 lab))%nat then 1 else 0) /\
  (forall rows, oneHotify (Rows rows) 2 = rows).
Proof.
  apply (oneHotify_rows [0; 1; 5; -2]%Z 2). lia.
Defined.

Lemma toy_meyda_thirteen : thirteen Toy.meyda.
Proof.
  intros sr fs frame mf H _. unfold Toy.meyda in H.
  injection H as <-. reflexivity.
Defined.

(** The extractor on the empty window, at 44.1 kHz, with the defaults. *)
Lemma extract_returns_26_witness :
  (exists k, (8 <= k <= 12)%Z /\ pickFrameSize 44100 = (2 ^ k)%Z) /\
  (256 <= pickFrameSize 44100 <= 4096)%Z /\
  isPowerOfTwo (pickFrameSize 44100) = true /\
  exists v : list R,
    length v = 26%nat /\
    (forall fuel : nat,
        (length (@nil R) + 4097 <= fuel)%nat ->
        extractFeaturesMonoFloat32 Toy.meyda fuel [] 44100 (mkOpts None None None)
        = Some (Returned v)) /\
    (noCoefficients Toy.meyda 44100 (pickFrameSize 44100) -> v = zeros 26).
Proof.
  exact (extract_returns_26 Toy.meyda toy_meyda_thirteen [] 44100
                            (mkOpts None None None)).
Defined.

End Witnesses.

(** ** [argmax], the vote history and the command of an utterance *)
Section VoteFacts.

Import JS Main Capture Spec.
Local Open Scope R_scope.

Lemma argmax_from_spec (v : list R) :
  forall (pre : list R) (bi : nat) (b : R),
    (bi < length pre)%nat ->
    b = nth bi pre 0 ->
    (forall j, (j < length pre)%nat -> nth j pre 0 <= b) ->
    (forall j, (j < bi)%nat -> nth j pre 0 < b) ->
    exists i : nat,
      (i < length (pre ++ v))%nat /\
      argmax_from v (Z.of_nat (length pre)) (Z.of_nat bi) (Some b)
      = (Z.of_nat i, Some (nth i (pre ++ v) 0)) /\
      (forall j, (j < length (pre ++ v))%nat ->
                 nth j (pre ++ v) 0 <= nth i (pre ++ v) 0) /\
      (forall j, (j < i)%nat -> nth j (pre ++ v) 0 < nth i (pre ++ v) 0).
Proof.
  induction v as [|x v IH]; intros pre bi b Hbi Hb Hmax Hfirst.
  - exists bi. rewrite app_nil_r. simpl. subst b. repeat split; auto.
  - simpl. unfold above.
    assert (Hlen : length (pre ++ [x]) = S (length pre))
      by (rewrite length_app; simpl; lia).
    assert (Hnth : forall j, (j < length pre)%nat ->
                             nth j (pre ++ [x]) 0 = nth j pre 0)
      by (intros j Hj; now rewrite app_nth1).
    assert (Hx : nth (length pre) (pre ++ [x]) 0 = x)
      by (rewrite app_nth2 by lia; now rewrite Nat.sub_diag).
    replace (Z.of_nat (length pre) + 1)%Z with (Z.of_nat (length (pre ++ [x])))
      by (rewrite Hlen; lia).
    replace (pre ++ x :: v) with ((pre ++ [x]) ++ v)
      by (now rewrite <- app_assoc).
    destruct (gtb x b) eqn:E.
    + apply gtb_true in E.
      apply (IH (pre ++ [x]) (length pre) x).
      * lia.
      * now rewrite Hx.
      * intros j Hj. rewrite Hlen in Hj.
        destruct (Nat.eq_dec j (length pre)) as [->|N].
        -- rewrite Hx. lra.
        -- rewrite Hnth by lia.
           assert (nth j pre 0 <= b) by (apply Hmax; lia). lra.
      * intros j Hj. rewrite Hnth by lia.
        assert (nth j pre 0 <= b) by (apply Hmax; lia). lra.
    + assert (x <= b).
      { unfold gtb in E. destruct (Rgt_dec x b); [discriminate|lra]. }
      apply (IH (pre ++ [x]) bi b).
      * lia.
      * rewrite Hnth by lia. exact Hb.
      * intros j Hj. rewrite Hlen in Hj.
        destruct (Nat.eq_dec j (length pre)) as [->|N].
        -- now rewrite Hx.
        -- rewrite Hnth by lia. apply Hmax. lia.
      * intros j Hj. rewrite Hnth by lia. now apply Hfirst.
Qed.

(** X1. [argmax] of a non-empty vector: the index is in range, the value
    is the entry at that index, no entry is larger, and every entry before
    it is strictly smaller (the first maximum wins).  On the empty vector
    it answers index 0 with [-Infinity]. *)
Theorem argmax_first_maximum :
  argmax [] = (0%Z, None) /\
  forall (x : R) (v : list R),
  exists i : nat,
    (i < length (x :: v))%nat /\
    argmax (x :: v) = (Z.of_nat i, Some (nth i (x :: v) 0)) /\
    (forall j, (j < length (x :: v))%nat -> nth j (x :: v) 0 <= nth i (x :: v) 0) /\
    (forall j, (j < i)%nat -> nth j (x :: v) 0 < nth i (x :: v) 0).
Proof.
  split; [reflexivity|].
  intros x v. unfold argmax. simpl argmax_from.
  apply (argmax_from_spec v [x] 0 x).
  - simpl. lia.
  - reflexivity.
  - intros j Hj. simpl in Hj. destruct j; [simpl; lra|lia].
  - intros j Hj. lia.
Qed.

Lemma pushPred_last (l : list Z) (x : Z) :
  (length l <= PRED_WINDOW)%nat ->
  (length (pushPred l x) <= PRED_WINDOW)%nat /\
  pushPred l x = skipn (length (l ++ [x]) - PRED_WINDOW) (l ++ [x]).
Proof.
  intros Hl. unfold pushPred. cbv zeta.
  assert (Hlen : length (l ++ [x]) = S (length l))
    by (rewrite length_app; simpl; lia).
  destruct (PRED_WINDOW <? length (l ++ [x]))%nat eqn:E.
  - apply Nat.ltb_lt in E.
    assert (length l = PRED_WINDOW) by lia.
    replace (length (l ++ [x]) - PRED_WINDOW)%nat with 1%nat by lia.
    split.
    + destruct (l ++ [x]) eqn:El; simpl in *; lia.
    + destruct (l ++ [x]); reflexivity.
  - apply Nat.ltb_ge in E.
    replace (length (l ++ [x]) - PRED_WINDOW)%nat with 0%nat by lia.
    split; [lia|reflexivity].
Qed.

Lemma decide_history (st : Loop) (t : Tick) :
  (length (lastPreds st) <= PRED_WINDOW)%nat ->
  (length (lastPreds (fst (decide st t))) <= PRED_WINDOW)%nat.
Proof.
  intros H. unfold decide.
  destruct (negb (nonZero (feats t))); [exact H|].
  destruct (reply t) as [|[y|]]; try exact H.
  destruct (length y <? 2)%nat; [exact H|].
  destruct (argmax _) as [idx val].
  assert (Hp : (length (if confident val then pushPred (lastPreds st) idx
                        else lastPreds st) <= PRED_WINDOW)%nat).
  { destruct (confident val); [|exact H]. now apply pushPred_last. }
  destruct (majority _); [|exact Hp].
  simpl utteranceFired.
  destruct (negb (utteranceFired st) && confident val); exact Hp.
Qed.

Lemma tick_history (rv : bool) (sr : R) (st : Loop) (t : Tick) :
  (length (lastPreds st) <= PRED_WINDOW)%nat ->
  (length (lastPreds (fst (livePredictTick rv sr st t))) <= PRED_WINDOW)%nat.
Proof.
  intros H. unfold livePredictTick.
  destruct (negb (worker st)); [exact H|]. cbv zeta.
  assert (Hg : (length (lastPreds (after (gate rv sr st t))) <= PRED_WINDOW)%nat).
  { unfold gate. cbv zeta.
    destruct (negb (inSpeech st) && _); [simpl; lia|].
    destruct (inSpeech st && _); [exact H|].
    destruct (negb (inSpeech st)); exact H. }
  destruct (go (gate rv sr st t)); [|exact Hg].
  pose proof (decide_history (after (gate rv sr st t)) t Hg) as D.
  destruct (decide _ t). exact D.
Qed.

(** X2. The vote history is a bounded queue: [pushPred] on a history of at
    most [PRED_WINDOW] = 5 entries gives the last five of the history with
    the new vote appended, and through any run of ticks the history never
    holds more than five votes. *)
Theorem history_bounded
        (rv : bool) (sr : R) (st : Loop) (ticks : list Tick) (x : Z)
        (Hst : (length (lastPreds st) <= PRED_WINDOW)%nat) :
  pushPred (lastPreds st) x
  = skipn (length (lastPreds st ++ [x]) - PRED_WINDOW) (lastPreds st ++ [x]) /\
  (length (pushPred (lastPreds st) x) <= PRED_WINDOW)%nat /\
  (length (lastPreds (endState (livePredictTick rv sr) st ticks))
   <= PRED_WINDOW)%nat.
Proof.
  destruct (pushPred_last (lastPreds st) x Hst) as [A B].
  split; [exact B|]. split; [exact A|].
  revert st Hst A B. induction ticks as [|t ts IH]; intros st Hst _ _; [exact Hst|].
  simpl. pose proof (tick_history rv sr st t Hst) as Ht.
  destruct (pushPred_last (lastPreds (fst (livePredictTick rv sr st t))) x Ht)
    as [A' B'].
  exact (IH _ Ht A' B').
Qed.

(** From the listening state, through a loud and a silent tick. *)
Lemma history_bounded_witness :
  pushPred (lastPreds Toy.listening) 1%Z
  = skipn (length (lastPreds Toy.listening ++ [1%Z]) - PRED_WINDOW)
          (lastPreds Toy.listening ++ [1%Z]) /\
  (length (pushPred (lastPreds Toy.listening) 1%Z) <= PRED_WINDOW)%nat /\
  (length (lastPreds (endState (livePredictTick true 44100) Toy.listening
                               [Toy.loudLeft; Toy.silent]))
   <= PRED_WINDOW)%nat.
Proof.
  apply (history_bounded true 44100 Toy.listening [Toy.loudLeft; Toy.silent] 1%Z).
  unfold PRED_WINDOW. simpl. lia.
Defined.

End VoteFacts.

(** ** What a command is, and when it goes out *)
Section CommandFacts.

Import JS Main Capture Spec.
Local Open Scope R_scope.







End CommandFacts.

(** ** The rolling capture buffer and the window of a tick *)
Section CaptureFacts.

Import JS Main Capture Spec.
Local Open Scope Z_scope.

Lemma samples_nil : samples [] = 0.
Proof. reflexivity. Qed.

Lemma samples_cons (c : list R) (buf : list (list R)) :
  samples (c :: buf) = Z.of_nat (length c) + samples buf.
Proof.
  unfold samples, takeCapturedMono. simpl. rewrite length_app. lia.
Qed.

Lemma samples_nonneg (buf : list (list R)) : 0 <= samples buf.
Proof. unfold samples. lia. Qed.

Lemma skipn_nth_cons (buf : list (list R)) (i : nat) :
  (i < length buf)%nat -> skipn i buf = nth i buf [] :: skipn (S i) buf.
Proof.
  revert i. induction buf as [|c buf IH]; intros i Hi; simpl in Hi; [lia|].
  destruct i as [|i]; [reflexivity|]. simpl. apply IH. lia.
Qed.

Lemma trimLoop_spec (buf : list (list R)) (maxSamples : Z) :
  forall (i1 : nat) (total : Z),
    (i1 <= length buf)%nat ->
    total = samples (skipn i1 buf) ->
    total <= Z.max 0 maxSamples ->
    (trimLoop buf maxSamples i1 total = buf /\ samples buf <= Z.max 0 maxSamples) \/
    (exists k : nat,
        (k < i1)%nat /\
        trimLoop buf maxSamples i1 total = skipn k buf /\
        maxSamples < samples (skipn k buf) /\
        samples (skipn (S k) buf) <= Z.max 0 maxSamples).
Proof.
  induction i1 as [|i IH]; intros total Hi Ht Hle; cbn [trimLoop].
  - left. change (skipn 0 buf) with buf in Ht. subst total.
    split; [reflexivity|exact Hle].
  - assert (E : samples (skipn i buf)
                = Z.of_nat (length (nth i buf [])) + samples (skipn (S i) buf)).
    { rewrite (skipn_nth_cons buf i) at 1 by lia. apply samples_cons. }
    destruct (total + Z.of_nat (length (nth i buf [])) >? maxSamples) eqn:G.
    + right. exists i. apply Z.gtb_lt in G.
      split; [lia|]. split; [reflexivity|]. split; lia.
    + assert (total + Z.of_nat (length (nth i buf [])) <= maxSamples)
        by (destruct (Z.gtb_spec (total + Z.of_nat (length (nth i buf []))) maxSamples);
            [discriminate|lia]).
      destruct (IH (total + Z.of_nat (length (nth i buf [])))) as [A|(k & Hk & A)];
        try lia.
      * now left.
      * right. exists k. split; [lia|exact A].
Qed.

(** X5. The audio callback keeps the capture buffer rolling: what it
    leaves is a suffix of the old buffer with the new chunk at its end (the
    new chunk is never dropped); without its oldest chunk it holds at most
    [maxSamples = ceil(5 * sampleRate)] samples; and it drops chunks only
    when the whole holds more than [maxSamples], in which case what is left
    still holds more than [maxSamples]. *)
Theorem capture_buffer_rolls
        (sampleRate : R) (captureBuf : list (list R)) (ch0 : list R) :
  let maxSamples := Math_ceil (5 * sampleRate) in
  let buf := onaudioprocess sampleRate captureBuf ch0 in
  (exists dropped kept,
      captureBuf = dropped ++ kept /\ buf = kept ++ [ch0]) /\
  samples (tl buf) <= Z.max 0 maxSamples /\
  (samples (captureBuf ++ [ch0]) <= maxSamples -> buf = captureBuf ++ [ch0]) /\
  (maxSamples < samples (captureBuf ++ [ch0]) -> maxSamples < samples buf).
Proof.
  cbv zeta. unfold onaudioprocess. cbv zeta.
  set (full := captureBuf ++ [ch0]). set (m := Math_ceil (5 * sampleRate)).
  assert (Hlen : length full = S (length captureBuf))
    by (unfold full; rewrite length_app; simpl; lia).
  destruct (trimLoop_spec full m (length full) 0) as [[E Hs]|(k & Hk & E & Hgt & Hle)];
    try lia.
  - rewrite skipn_all. reflexivity.
  - rewrite E. split; [|split; [|split]].
    + exists [], captureBuf. split; reflexivity.
    + pose proof (samples_nonneg (tl full)).
      assert (samples (tl full) <= samples full).
      { destruct full as [|c r]; [simpl; lia|]. rewrite samples_cons. simpl. lia. }
      lia.
    + reflexivity.
    + intros H. pose proof (samples_nonneg full). lia.
  - rewrite E. split; [|split; [|split]].
    + exists (firstn k captureBuf), (skipn k captureBuf). split.
      * symmetry. apply firstn_skipn.
      * unfold full. rewrite skipn_app.
        replace (k - length captureBuf)%nat with 0%nat by lia. reflexivity.
    + rewrite (skipn_nth_cons full k) by lia. simpl. exact Hle.
    + intros H.
      assert (samples (skipn k full) <= samples full).
      { rewrite <- (firstn_skipn k full) at 2.
        unfold samples, takeCapturedMono. rewrite concat_app, length_app. lia. }
      lia.
    + intros _. exact Hgt.
Qed.

(** X6. The window a tick measures is the end of the capture: the whole
    capture when it holds at most [ceil(0.8 * sampleRate)] samples, its last
    [ceil(0.8 * sampleRate)] samples otherwise (none for a negative
    count). *)
Theorem lastWindow_is_tail (sampleRate : R) (mono : list R) :
  let framesNeeded := Math_ceil (0.8 * sampleRate) in
  (exists older, mono = older ++ lastWindow sampleRate mono) /\
  Z.of_nat (length (lastWindow sampleRate mono))
  = Z.min (Z.of_nat (length mono)) (Z.max 0 framesNeeded) /\
  (Z.of_nat (length mono) <= framesNeeded -> lastWindow sampleRate mono = mono).
Proof.
  cbv zeta. unfold lastWindow. cbv zeta.
  set (fn := Math_ceil (0.8 * sampleRate)).
  destruct (Z.of_nat (length mono) >? fn) eqn:G.
  - apply Z.gtb_lt in G. unfold subarray.
    set (b := Z.to_nat (Z.of_nat (length mono) - fn)).
    assert (Hf : firstn (length mono - b) (skipn b mono) = skipn b mono).
    { apply firstn_all2. rewrite length_skipn. lia. }
    rewrite Hf. split; [|split].
    + exists (firstn b mono). symmetry. apply firstn_skipn.
    + rewrite length_skipn. unfold b. lia.
    + lia.
  - assert (Z.of_nat (length mono) <= fn)
      by (destruct (Z.gtb_spec (Z.of_nat (length mono)) fn); [discriminate|lia]).
    split; [|split].
    + exists []. reflexivity.
    + lia.
    + reflexivity.
Qed.

End CaptureFacts.

(** ** Energy between the smallest and the largest magnitude *)
Section EnergyFacts.

Import JS Main Capture Spec.
Local Open Scope R_scope.

Lemma sumSquares_bounds (a b : R) (x : list R) :
  0 <= a ->
  Forall (fun v => a <= Rabs v <= b) x ->
  INR (length x) * (a * a) <= sumSquares x <= INR (length x) * (b * b).
Proof.
  intros Ha H. induction H as [|v x [Hv1 Hv2] _ IH].
  - simpl. lra.
  - change (length (v :: x)) with (S (length x)). rewrite S_INR.
    simpl sumSquares.
    assert (Hsq : v * v = Rabs v * Rabs v).
    { unfold Rabs. destruct (Rcase_abs v); lra. }
    assert (a * a <= Rabs v * Rabs v) by (apply Rmult_le_compat; lra).
    assert (Rabs v * Rabs v <= b * b) by (apply Rmult_le_compat; lra).
    lra.
Qed.

(** X7. The energy of a non-empty window lies between the smallest and
    the largest magnitude of its samples.  So, with gating on, a window
    whose samples all stay below 0.005 in magnitude cannot open the gate,
    and one whose samples all reach 0.005 opens it. *)
Theorem rms_between_magnitudes
        (a b : R) (v : R) (x : list R)
        (Ha : 0 <= a)
        (Hx : Forall (fun s => a <= Rabs s <= b) (v :: x)) :
  a <= rms (v :: x) <= b /\
  (b < VAD_ENTER -> speechNow true false (rms (v :: x)) = false) /\
  (VAD_ENTER <= a -> speechNow true false (rms (v :: x)) = true).
Proof.
  assert (Hb : a <= b).
  { inversion Hx as [|? ? [H1 H2] _]; subst. lra. }
  assert (R : a <= rms (v :: x) <= b).
  { unfold rms. cbv zeta. rewrite fold_squares, Rplus_0_l.
    pose proof (sumSquares_bounds a b (v :: x) Ha Hx) as [L U].
    set (n := INR (length (v :: x))) in *.
    assert (Hn : 1 <= n).
    { unfold n. change (length (v :: x)) with (S (length x)). rewrite S_INR.
      pose proof (pos_INR (length x)). lra. }
    rewrite Rmax_right by exact Hn.
    split.
    - rewrite <- (sqrt_square a) by exact Ha.
      apply sqrt_le_1_alt.
      apply (Rmult_le_reg_r n); [lra|].
      replace (sumSquares (v :: x) / n * n) with (sumSquares (v :: x))
        by (field; lra).
      lra.
    - rewrite <- (sqrt_square b) by lra.
      apply sqrt_le_1_alt.
      apply (Rmult_le_reg_r n); [lra|].
      replace (sumSquares (v :: x) / n * n) with (sumSquares (v :: x))
        by (field; lra).
      lra. }
  split; [exact R|]. unfold speechNow. simpl. split; intros H.
  - apply geb_false. lra.
  - apply geb_true. lra.
Qed.

(** A window of two samples of magnitude 0.01. *)
Lemma rms_between_magnitudes_witness :
  0.01 <= rms [0.01; -0.01] <= 0.01 /\
  (0.01 < VAD_ENTER -> speechNow true false (rms [0.01; -0.01]) = false) /\
  (VAD_ENTER <= 0.01 -> speechNow true false (rms [0.01; -0.01]) = true).
Proof.
  apply (rms_between_magnitudes 0.01 0.01 0.01 [-0.01]).
  - lra.
  - repeat constructor; unfold Rabs; destruct (Rcase_abs _); lra.
Defined.

End EnergyFacts.

(** ** The power-of-two check and the choice of the frame size *)
Section FrameChoiceFacts.

Import JS Exn Loops Mfcc Frames Spec.
Local Open Scope Z_scope.

Lemma toInt32_small (z : Z) :
  - 2147483648 <= z < 2147483648 -> toInt32 z = z.
Proof.
  intros H. unfold toInt32.
  rewrite Z.mod_small by lia. lia.
Qed.

Lemma land_pred_pow2 (n : Z) :
  0 < n -> (Z.land n (n - 1) = 0 <-> exists k, 0 <= k /\ n = 2 ^ k).
Proof.
  intros Hn. split.
  - intros H. exists (Z.log2 n).
    pose proof (Z.log2_nonneg n) as Hk.
    pose proof (Z.log2_spec n Hn) as [Hlo Hhi].
    split; [exact Hk|].
    destruct (Z.eq_dec n (2 ^ Z.log2 n)) as [E|N]; [exact E|exfalso].
    assert (Hp : 0 < 2 ^ Z.log2 n) by (apply Z.pow_pos_nonneg; lia).
    assert (L : Z.log2 (n - 1) = Z.log2 n).
    { apply Z.log2_unique; [exact Hk|]. lia. }
    assert (B1 : Z.testbit n (Z.log2 n) = true) by (apply Z.bit_log2; lia).
    assert (B2 : Z.testbit (n - 1) (Z.log2 n) = true).
    { rewrite <- L. apply Z.bit_log2. lia. }
    assert (B : Z.testbit (Z.land n (n - 1)) (Z.log2 n) = true)
      by (rewrite Z.land_spec, B1, B2; reflexivity).
    rewrite H, Z.bits_0 in B. discriminate.
  - intros (k & Hk & ->).
    replace (2 ^ k - 1) with (Z.ones k) by (rewrite Z.ones_equiv; lia).
    rewrite Z.land_ones by exact Hk.
    apply Z.mod_same. apply Z.pow_nonzero; lia.
Qed.

(** X8. [isPowerOfTwo] on 32-bit positive integers is exact: for
    [0 < n < 2^31] it answers true exactly when [n] is a power of two, and
    it answers false for every [n <= 0].  Beyond 32 bits the operands wrap
    and it is not exact any more: [2^32 + 2^31] passes. *)
Theorem isPowerOfTwo_exact :
  (forall n, 0 < n < 2 ^ 31 ->
             (isPowerOfTwo n = true <-> exists k, 0 <= k /\ n = 2 ^ k)) /\
  (forall n, n <= 0 -> isPowerOfTwo n = false) /\
  isPowerOfTwo (2 ^ 32 + 2 ^ 31) = true.
Proof.
  split; [|split].
  - intros n [Hn Hb]. unfold isPowerOfTwo, band.
    change (2 ^ 31) with 2147483648 in Hb.
    rewrite !toInt32_small by lia.
    rewrite <- (land_pred_pow2 n Hn).
    destruct (Z.gtb_spec n 0); [|lia]. simpl.
    apply Z.eqb_eq.
  - intros n Hn. unfold isPowerOfTwo.
    destruct (Z.gtb_spec n 0); [lia|reflexivity].
  - reflexivity.
Qed.

Lemma shl_one (k : Z) : 0 <= k <= 30 -> shl 1 k = 2 ^ k.
Proof.
  intros Hk. revert k Hk.
  assert (G : forall z, 0 <= z < 32 -> z <= 30 -> shl 1 z = 2 ^ z).
  { apply (small_cases (fun z => z <= 30 -> shl 1 z = 2 ^ z)).
    intros k Hk.
    do 31 (destruct k as [|k]; [intros _; reflexivity|]).
    intros H. lia. }
  intros k Hk. apply G; lia.
Qed.

Lemma ltb_IZR (a b : Z) : ltb (IZR a) (IZR b) = (a <? b).
Proof.
  destruct (Z.ltb_spec a b) as [H|H].
  - apply ltb_true. now apply IZR_lt.
  - apply ltb_false. now apply IZR_le.
Qed.

Lemma IZR_pow2 (k : Z) : 0 <= k -> IZR (2 ^ k) = (2 ^ Z.to_nat k)%R.
Proof.
  intros Hk. rewrite pow_IZR. now rewrite Z2Nat.id.
Qed.

Lemma log2_exact (n : nat) : Math_log2 (2 ^ n) = INR n.
Proof.
  unfold Math_log2. rewrite ln_pow by lra.
  pose proof ln2_pos. field. lra.
Qed.

(** X9. The frame size is the power of two nearest to the number of
    samples in 25 ms (the lower one on a tie), clamped to [256, 4096]: for
    every sample rate whose 25 ms hold fewer than [2^30] samples. *)
Theorem pickFrameSize_nearest (sampleRate : R)
        (Hrate : Math_floor (0.025 * sampleRate) < 2 ^ 30) :
  pickFrameSize sampleRate
  = clamped (nearestPow2 (Z.max 1 (Math_floor (0.025 * sampleRate)))).
Proof.
  unfold pickFrameSize. fold (clamped
    (if ltb (Rabs (IZR (shl 1 (Math_ceil (Math_log2
               (Rmax 1 (IZR (Math_floor (0.025 * sampleRate)))))))
                   - Rmax 1 (IZR (Math_floor (0.025 * sampleRate)))))
            (Rabs (IZR (shl 1 (Math_floor (Math_log2
               (Rmax 1 (IZR (Math_floor (0.025 * sampleRate)))))))
                   - Rmax 1 (IZR (Math_floor (0.025 * sampleRate)))))
     then shl 1 (Math_ceil (Math_log2
               (Rmax 1 (IZR (Math_floor (0.025 * sampleRate))))))
     else shl 1 (Math_floor (Math_log2
               (Rmax 1 (IZR (Math_floor (0.025 * sampleRate)))))))).
  f_equal.
  set (z := Math_floor (0.025 * sampleRate)) in *.
  set (t := Z.max 1 z).
  assert (Ht : Rmax 1 (IZR z) = IZR t).
  { unfold t. destruct (Z.max_spec 1 z) as [[H ->]|[H ->]].
    - apply Rmax_right. apply IZR_le. lia.
    - apply Rmax_left. apply IZR_le. lia. }
  rewrite Ht.
  assert (Ht1 : 1 <= t < 2 ^ 30) by (unfold t; lia).
  unfold nearestPow2. cbv zeta.
  set (k := Z.log2 t).
  pose proof (Z.log2_nonneg t) as Hk0. fold k in Hk0.
  destruct (Z.log2_spec t) as [Hlo Hhi]; [lia|]. fold k in Hlo, Hhi.
  replace (Z.succ k) with (k + 1) in Hhi by lia.
  assert (Hk : k <= 29).
  { destruct (Z_le_gt_dec k 29) as [H|H]; [exact H|exfalso].
    assert (2 ^ 30 <= 2 ^ k) by (apply Z.pow_le_mono_r; lia). lia. }
  set (n := Z.to_nat k).
  assert (Hn : Z.of_nat n = k) by (unfold n; lia).
  assert (Plo : IZR (2 ^ k) = (2 ^ n)%R) by (apply IZR_pow2; lia).
  assert (Phi : IZR (2 ^ (k + 1)) = (2 ^ S n)%R).
  { rewrite IZR_pow2 by lia. f_equal. unfold n. lia. }
  destruct (Z.eq_dec t (2 ^ k)) as [E|N].
  - (* an exact power of two: floor and ceil of the logarithm agree *)
    assert (L : Math_log2 (IZR t) = INR n) by (rewrite E, Plo; apply log2_exact).
    rewrite L.
    rewrite (floor_between (INR n) k) by (rewrite INR_IZR_INZ, Hn; lra).
    rewrite (ceil_between (INR n) k) by (rewrite INR_IZR_INZ, Hn; lra).
    rewrite shl_one by lia.
    rewrite (proj2 (ltb_false _ _)) by lra.
    destruct (Z.ltb_spec (2 ^ (k + 1) - t) (t - 2 ^ k)); [lia|reflexivity].
  - assert (B : (2 ^ n < IZR t < 2 ^ S n)%R).
    { rewrite <- Plo, <- Phi. split; apply IZR_lt; lia. }
    destruct (log2_between _ n B) as [La Lb].
    rewrite (floor_between _ k) by (rewrite <- Hn, <- INR_IZR_INZ; lra).
    rewrite (ceil_between _ (k + 1))
      by (rewrite plus_IZR, <- Hn, <- INR_IZR_INZ; lra).
    rewrite !shl_one by lia.
    rewrite <- !minus_IZR.
    rewrite (Rabs_pos_eq (IZR (2 ^ (k + 1) - t))) by (apply IZR_le; lia).
    rewrite (Rabs_left1 (IZR (2 ^ k - t))) by (apply IZR_le; lia).
    rewrite <- opp_IZR, ltb_IZR.
    replace (- (2 ^ k - t)) with (t - 2 ^ k) by lia.
    reflexivity.
Qed.

(** 48 kHz: 1200 samples in 25 ms, nearest power 1024. *)
Lemma pickFrameSize_nearest_witness :
  pickFrameSize 48000 = clamped (nearestPow2 (Z.max 1 (Math_floor (0.025 * 48000)))).
Proof.
  apply (pickFrameSize_nearest 48000).
  rewrite (floor_between (0.025 * 48000) 1200) by lra. reflexivity.
Defined.

End FrameChoiceFacts.

(** ** Normalization and silence trimming *)
Section SignalFacts.

Import JS Exn Loops Mfcc Frames Spec.
Local Open Scope R_scope.




Lemma quiet_ltb (thr v : R) : ltb (Rabs v) thr = true <-> quiet thr v.
Proof.
  unfold quiet, ltb. destruct (Rlt_dec (Rabs v) thr); split; intros H;
    try reflexivity; try assumption; try discriminate; contradiction.
Qed.

Lemma loud_ltb (thr v : R) : ltb (Rabs v) thr = false <-> loud thr v.
Proof.
  unfold loud, ltb. destruct (Rlt_dec (Rabs v) thr); split; intros H;
    try reflexivity; try discriminate; lra.
Qed.

Lemma scanStart_spec (thr : R) (x : list R) :
  (scanStart thr x <= length x)%nat /\
  Forall (quiet thr) (firstn (scanStart thr x) x) /\
  ((scanStart thr x < length x)%nat -> loud thr (nth (scanStart thr x) x 0)).
Proof.
  induction x as [|v x IH]; cbn [scanStart].
  - split; [simpl; lia|]. split; [constructor|]. simpl. lia.
  - destruct (ltb (Rabs v) thr) eqn:E.
    + destruct IH as (Hle & Hq & Hl).
      split; [simpl; lia|]. split.
      * cbn [firstn]. constructor; [now apply quiet_ltb|exact Hq].
      * intros H. cbn [nth]. apply Hl. simpl in H. lia.
    + split; [simpl; lia|]. split; [constructor|].
      intros _. cbn [nth]. now apply loud_ltb.
Qed.

Lemma scanEnd_low (thr : R) (x : list R) (s e1 : nat) :
  (e1 <= s)%nat -> scanEnd thr x s e1 = e1.
Proof.
  intros H. destruct e1 as [|e]; [reflexivity|]. cbn [scanEnd].
  destruct (Nat.ltb_spec s e); [lia|reflexivity].
Qed.

Lemma scanEnd_spec (thr : R) (x : list R) (s e1 : nat) :
  (s < e1)%nat ->
  (s < scanEnd thr x s e1 <= e1)%nat /\
  (forall j, (scanEnd thr x s e1 <= j < e1)%nat -> quiet thr (nth j x 0)) /\
  (scanEnd thr x s e1 = S s \/ loud thr (nth (scanEnd thr x s e1 - 1) x 0)).
Proof.
  induction e1 as [|e IH]; intros H; [lia|]. cbn [scanEnd].
  destruct (Nat.ltb_spec s e) as [Hs|Hs]; cbn [andb].
  - destruct (ltb (Rabs (nth e x 0)) thr) eqn:E.
    + destruct (IH Hs) as (Hr & Hq & Hl).
      split; [lia|]. split; [|exact Hl].
      intros j Hj. destruct (Nat.eq_dec j e) as [->|Hne].
      * now apply quiet_ltb.
      * apply Hq. lia.
    + split; [lia|]. split; [intros j Hj; lia|].
      right. replace (S e - 1)%nat with e by lia. now apply loud_ltb.
  - split; [lia|]. split; [intros j Hj; lia|].
    left. f_equal. lia.
Qed.

Lemma last_as_nth (l : list R) : last l 0 = nth (length l - 1) l 0.
Proof.
  induction l as [|a l IH]; [reflexivity|].
  destruct l as [|b l]; [reflexivity|].
  change (last (a :: b :: l) 0) with (last (b :: l) 0). rewrite IH.
  cbn [length]. replace (S (S (length l)) - 1)%nat with (S (length l)) by lia.
  cbn [nth]. replace (S (length l) - 1)%nat with (length l) by lia.
  reflexivity.
Qed.

Lemma trimSilence_fixed (thr : R) (l : list R) :
  l = [] \/ (loud thr (hd 0 l) /\ loud thr (last l 0)) ->
  trimSilence l thr = l.
Proof.
  intros [->|[Hh Hl]]; [reflexivity|].
  destruct l as [|v l]; [reflexivity|].
  unfold trimSilence. cbn [scanStart hd] in *.
  rewrite (proj2 (loud_ltb thr v) Hh).
  cbn [length scanEnd].
  rewrite last_as_nth in Hl. cbn [length] in Hl.
  replace (S (length l) - 1)%nat with (length l) in Hl by lia.
  rewrite (proj2 (loud_ltb _ _) Hl), andb_false_r.
  unfold subarray. cbn [skipn].
  replace (S (length l) - 0)%nat with (length (v :: l)) by (simpl; lia).
  apply firstn_all.
Qed.

(** X11. [trimSilence] cuts a quiet head and a quiet tail and nothing
    else: the window is head, kept part, tail, with every sample of head and
    tail below the threshold; the kept part is empty (only when the whole
    window is quiet) or begins and ends with a sample that reaches the
    threshold; trimming again changes nothing. *)
Theorem trimSilence_cuts (x : list R) (thr : R) :
  (exists pre post,
      x = pre ++ trimSilence x thr ++ post /\
      Forall (quiet thr) pre /\ Forall (quiet thr) post) /\
  (trimSilence x thr = [] /\ Forall (quiet thr) x \/
   trimSilence x thr <> [] /\
   loud thr (hd 0 (trimSilence x thr)) /\
   loud thr (last (trimSilence x thr) 0)) /\
  trimSilence (trimSilence x thr) thr = trimSilence x thr.
Proof.
  assert (Main :
    (exists pre post,
      x = pre ++ trimSilence x thr ++ post /\
      Forall (quiet thr) pre /\ Forall (quiet thr) post) /\
    (trimSilence x thr = [] /\ Forall (quiet thr) x \/
     trimSilence x thr <> [] /\
     loud thr (hd 0 (trimSilence x thr)) /\
     loud thr (last (trimSilence x thr) 0))).
  { destruct (scanStart_spec thr x) as (Hle & Hq & Hl).
    unfold trimSilence. set (s := scanStart thr x) in *.
    destruct (Nat.eq_dec s (length x)) as [Es|Ns].
    - (* the whole window is quiet *)
      rewrite (scanEnd_low thr x s (length x)) by lia.
      unfold subarray. rewrite Es, Nat.sub_diag. cbn [firstn].
      rewrite Es, firstn_all in Hq.
      split; [|left; split; [reflexivity|exact Hq]].
      exists x, []. split; [now rewrite !app_nil_r|].
      split; [exact Hq|constructor].
    - assert (Hs : (s < length x)%nat) by lia.
      destruct (scanEnd_spec thr x s (length x) Hs) as (Hr & Hqe & Hle').
      set (r := scanEnd thr x s (length x)) in *.
      unfold subarray.
      assert (Hlen : length (firstn (r - s) (skipn s x)) = (r - s)%nat).
      { rewrite length_firstn, length_skipn. lia. }
      assert (Hnth : forall j, (j < r - s)%nat ->
                 nth j (firstn (r - s) (skipn s x)) 0 = nth (s + j) x 0).
      { intros j Hj. rewrite nth_firstn.
        destruct (Nat.ltb_spec j (r - s)); [|lia].
        apply nth_skipn. }
      split.
      + exists (firstn s x), (skipn r x). split; [|split; [exact Hq|]].
        * replace (skipn r x) with (skipn (r - s) (skipn s x))
            by (rewrite skipn_skipn; f_equal; lia).
          now rewrite firstn_skipn, firstn_skipn.
        * apply Forall_nth. intros i d Hi.
          rewrite length_skipn in Hi.
          rewrite (nth_indep _ d 0) by (rewrite length_skipn; lia).
          rewrite nth_skipn. apply Hqe. lia.
      + right. split; [|split].
        * intros E. rewrite E in Hlen. simpl in Hlen. lia.
        * replace (hd 0 (firstn (r - s) (skipn s x)))
            with (nth 0 (firstn (r - s) (skipn s x)) 0)
            by (now destruct (firstn (r - s) (skipn s x))).
          rewrite Hnth by lia. rewrite Nat.add_0_r. now apply Hl.
        * rewrite last_as_nth, Hlen, Hnth by lia.
          replace (s + (r - s - 1))%nat with (r - 1)%nat by lia.
          destruct Hle' as [E|Hl']; [|exact Hl'].
          rewrite E. replace (S s - 1)%nat with s by lia. now apply Hl. }
  destruct Main as [Hcut Hends]. split; [exact Hcut|]. split; [exact Hends|].
  apply trimSilence_fixed.
  destruct Hends as [[E _]|(_ & Hh & Hl)]; [now left|now right].
Qed.

End SignalFacts.

(** ** The aggregate of the frames, and a window shorter than a frame *)
Section AggregateFacts.

Import JS Exn Loops Mfcc Frames Spec.
Local Open Scope R_scope.

Variable meyda : R -> Z -> list R -> option (list R).

Lemma column_length (d : nat) (rows : list (list R)) :
  length (column d rows) = length rows.
Proof. apply length_map. Qed.

Lemma aggregate_means (rows : list (list R)) (d : nat) :
  (d < length (hd [] rows))%nat ->
  nth d (divEach (sumRows (length (hd [] rows)) (fun _ v => v) rows) (length rows)) 0
  = mean (column d rows).
Proof.
  intros Hd. unfold divEach.
  rewrite nth_map_R by (now rewrite sumRows_length).
  rewrite sumRows_nth by exact Hd.
  unfold mean. now rewrite map_id, column_length.
Qed.

Lemma aggregate_nth (rows : list (list R)) (d : nat) :
  (d < length (hd [] rows))%nat ->
  nth d (aggregate rows) 0 = mean (column d rows) /\
  nth (length (hd [] rows) + d) (aggregate rows) 0
  = sqrt (total (map (fun v => (v - mean (column d rows)) * (v - mean (column d rows)))
                     (column d rows))
          / bessel (length rows)).
Proof.
  intros Hd. unfold aggregate. cbv zeta.
  set (D := length (hd [] rows)) in *.
  set (means := divEach (sumRows D (fun _ v => v) rows) (length rows)).
  assert (Lm : length means = D)
    by (unfold means, divEach; now rewrite length_map, sumRows_length).
  assert (Em : nth d means 0 = mean (column d rows)) by (now apply aggregate_means).
  split.
  - rewrite app_nth1 by lia. exact Em.
  - rewrite app_nth2 by lia.
    replace (D + d - length means)%nat with d by lia.
    rewrite (nth_map_R (fun s => sqrt (s / bessel (length rows))))
      by (now rewrite sumRows_length).
    rewrite sumRows_nth by exact Hd.
    now rewrite Em.
Qed.

(** X12. The aggregate of [T >= 1] frames of [D] coefficients each has
    [2 D] entries: entry [d] is the mean of coefficient [d] over the frames,
    entry [D + d] its sample standard deviation with the [T - 1]
    denominator when [T >= 2]; for a single frame the first half is the
    frame and the second half is zero. *)
Theorem aggregate_mean_then_std
        (mf0 : list R) (rest : list (list R))
        (Hrect : Forall (fun mf => length mf = length mf0) rest)
        (d : nat) (Hd : (d < length mf0)%nat) :
  length (aggregate (mf0 :: rest)) = (2 * length mf0)%nat /\
  nth d (aggregate (mf0 :: rest)) 0 = mean (column d (mf0 :: rest)) /\
  (rest <> [] ->
   nth (length mf0 + d) (aggregate (mf0 :: rest)) 0
   = sampleStd (column d (mf0 :: rest))) /\
  (rest = [] ->
   nth d (aggregate (mf0 :: rest)) 0 = nth d mf0 0 /\
   nth (length mf0 + d) (aggregate (mf0 :: rest)) 0 = 0).
Proof.
  destruct (aggregate_nth (mf0 :: rest) d Hd) as [Hm Hs].
  cbn [hd] in Hs.
  split.
  { unfold aggregate, divEach. rewrite length_app, !length_map, !sumRows_length.
    simpl. lia. }
  split; [exact Hm|]. split.
  - intros Hne. rewrite Hs. unfold sampleStd, bessel.
    rewrite column_length.
    destruct rest as [|r rest]; [congruence|].
    rewrite Rmax_right; [reflexivity|].
    cbn [length]. rewrite !S_INR. pose proof (pos_INR (length rest)). lra.
  - intros ->. rewrite Hm, Hs.
    unfold mean, column, bessel. cbn [map length total fold_right INR].
    split; [field|].
    replace (nth d mf0 0 - (nth d mf0 0 + 0) / 1) with 0 by field.
    rewrite Rmult_0_l, Rplus_0_l. unfold Rdiv. rewrite Rmult_0_l.
    apply sqrt_0.
Qed.

(** Two frames of two coefficients. *)
Lemma aggregate_mean_then_std_witness :
  length (aggregate [[1; 2]; [3; 4]]) = (2 * length [1; 2])%nat /\
  nth 0 (aggregate [[1; 2]; [3; 4]]) 0 = mean (column 0 [[1; 2]; [3; 4]]) /\
  ([[3; 4]] <> [] ->
   nth (length [1; 2] + 0) (aggregate [[1; 2]; [3; 4]]) 0
   = sampleStd (column 0 [[1; 2]; [3; 4]])) /\
  ([[3; 4]] = [] ->
   nth 0 (aggregate [[1; 2]; [3; 4]]) 0 = nth 0 [1; 2] 0 /\
   nth (length [1; 2] + 0) (aggregate [[1; 2]; [3; 4]]) 0 = 0).
Proof.
  apply (aggregate_mean_then_std [1; 2] [[3; 4]]).
  - repeat constructor.
  - simpl. lia.
Defined.

End AggregateFacts.

(** ** A window shorter than one frame *)
Section ShortWindowFacts.

Import JS Exn Loops Mfcc Frames Spec.
Local Open Scope R_scope.

Variable meyda : R -> Z -> list R -> option (list R).

Lemma aggregate_single (mf : list R) :
  aggregate [mf] = mf ++ zeros (length mf).
Proof.
  apply (nth_ext _ _ 0 0).
  - rewrite aggregate_length, length_app, zeros_length. simpl. lia.
  - intros n Hn. rewrite aggregate_length in Hn. cbn [hd] in Hn.
    destruct (Nat.lt_ge_cases n (length mf)) as [Hlt|Hge].
    + destruct (aggregate_nth [mf] n Hlt) as [Hm _].
      rewrite Hm, app_nth1 by exact Hlt.
      unfold mean, column. cbn [map length total fold_right INR]. field.
    + assert (Hd : (n - length mf < length (hd [] [mf]))%nat) by (simpl; lia).
      destruct (aggregate_nth [mf] (n - length mf) Hd) as [Hm Hs].
      cbn [hd] in Hs.
      replace (length mf + (n - length mf))%nat with n in Hs by lia.
      rewrite Hs, app_nth2 by lia.
      unfold zeros. rewrite nth_repeat.
      unfold mean, column, bessel. cbn [map length total fold_right INR].
      set (v := nth (n - length mf) mf 0).
      replace (v - (v + 0) / 1) with 0 by field.
      rewrite Rmult_0_l, Rplus_0_l. unfold Rdiv. rewrite Rmult_0_l.
      apply sqrt_0.
Qed.

Lemma subarray_all (x : list R) : subarray x 0 (length x) = x.
Proof.
  unfold subarray. cbn [skipn]. rewrite Nat.sub_0_r. apply firstn_all.
Qed.

(** X13. A window with fewer samples than one frame.  Without padding the
    result is the zero vector of 26 entries, whatever the coefficient
    routine would answer.  With padding and the untrimmed fallback (the
    defaults) exactly one frame is analysed: zeros at the head, the
    normalized window at the end; the result holds that frame's
    coefficients followed by as many zeros (the deviations of a single
    frame), or 26 zeros when the routine gives none. *)
Theorem short_window_single_frame
        (float32 : list R) (sampleRate : R) (opts : MFCCOptions)
        (Hshort : (Z.of_nat (length float32) < pickFrameSize sampleRate)%Z) :
  (padToFrame opts = Some false ->
   forall fuel,
     extractFeaturesMonoFloat32 meyda fuel float32 sampleRate opts
     = Some (Returned (zeros 26))) /\
  (padToFrame opts <> Some false ->
   allowUntrimFallback opts <> Some false ->
   forall fuel,
     extractFeaturesMonoFloat32 meyda (S fuel) float32 sampleRate opts
     = Some (Returned
         match meyda sampleRate (pickFrameSize sampleRate)
                     (zeros (Z.to_nat (pickFrameSize sampleRate) - length float32)
                      ++ normalize float32) with
         | Some (c :: mf) => (c :: mf) ++ zeros (length (c :: mf))
         | _ => zeros 26
         end)).
Proof.
  pose proof (pickFrameSize_in sampleRate) as Hin.
  destruct (frameSize_facts _ Hin) as (_ & Hrange & Hpow & Hhop).
  unfold extractFeaturesMonoFloat32. cbv zeta.
  set (fs := pickFrameSize sampleRate) in *.
  set (norm := normalize float32).
  assert (Ln : length norm = length float32) by apply normalize_length.
  set (trimmed := trimSilence norm (default (trimThreshold opts) 0.003)).
  assert (Lt : (length trimmed <= length float32)%nat)
    by (rewrite <- Ln; apply trimSilence_length).
  assert (St : (Z.of_nat (length trimmed) <? fs)%Z = true)
    by (apply Z.ltb_lt; lia).
  assert (Sn : (Z.of_nat (length norm) <? fs)%Z = true)
    by (apply Z.ltb_lt; lia).
  rewrite St. cbn [andb].
  split.
  - intros Hpad. rewrite Hpad. cbn [default].
    assert (Ss : (Z.of_nat (length (if default (allowUntrimFallback opts) true
                                    then norm else trimmed)) <? fs)%Z = true)
      by (destruct (default (allowUntrimFallback opts) true); assumption).
    rewrite Ss. cbn [andb].
    intros fuel. unfold framesToFeatures. cbv zeta. now rewrite Ss.
  - intros Hpad Hfb fuel.
    assert (Efb : default (allowUntrimFallback opts) true = true)
      by (destruct (allowUntrimFallback opts) as [[|]|]; [reflexivity|congruence|reflexivity]).
    assert (Epad : default (padToFrame opts) true = true)
      by (destruct (padToFrame opts) as [[|]|]; [reflexivity|congruence|reflexivity]).
    rewrite Efb, Epad, Sn. cbn [andb].
    rewrite Z.min_l by lia.
    rewrite Z.sub_diag. change (Z.to_nat 0) with O.
    rewrite subarray_all.
    replace (Z.to_nat (fs - Z.of_nat (length norm)))
      with (Z.to_nat fs - length float32)%nat by lia.
    set (frame := zeros (Z.to_nat fs - length float32) ++ norm).
    assert (Lf : length frame = Z.to_nat fs).
    { unfold frame. rewrite length_app, zeros_length. lia. }
    unfold framesToFeatures. cbv zeta.
    rewrite Lf, Z2Nat.id by lia.
    rewrite Z.ltb_irrefl, Hpow. cbn [negb].
    cbn [slide]. rewrite Lf, Z2Nat.id by lia.
    replace (0 + fs <=? fs)%Z with true by (symmetry; apply Z.leb_le; lia).
    replace (Z.to_nat (0 + fs)) with (length frame) by lia.
    change (Z.to_nat 0) with O. rewrite subarray_all.
    assert (Stop : forall acc,
               slide meyda fuel sampleRate fs (fs / 2) frame (0 + fs / 2) acc
               = Some acc).
    { intros acc. destruct fuel; cbn [slide]; rewrite Lf, Z2Nat.id by lia;
        (replace (0 + fs / 2 + fs <=? fs)%Z with false
           by (symmetry; apply Z.leb_gt; lia)); reflexivity. }
    rewrite Stop.
    rewrite Z.sub_diag. change (Z.to_nat 0) with O.
    rewrite <- Lf, subarray_all.
    unfold collect.
    destruct (meyda sampleRate fs frame) as [[|c mf]|];
      cbn [length Nat.ltb Nat.leb Nat.eqb app]; try reflexivity.
    now rewrite aggregate_single.
Qed.

End ShortWindowFacts.

Section ShortWindowExamples.

Import JS Exn Loops Mfcc Frames Spec.
Local Open Scope R_scope.

(** The empty window at 44.1 kHz, with the defaults. *)
Lemma short_window_single_frame_witness :
  (padToFrame (mkOpts None None None) = Some false ->
   forall fuel,
     extractFeaturesMonoFloat32 Toy.meyda fuel [] 44100 (mkOpts None None None)
     = Some (Returned (zeros 26))) /\
  (padToFrame (mkOpts None None None) <> Some false ->
   allowUntrimFallback (mkOpts None None None) <> Some false ->
   forall fuel,
     extractFeaturesMonoFloat32 Toy.meyda (S fuel) [] 44100 (mkOpts None None None)
     = Some (Returned
         match Toy.meyda 44100 (pickFrameSize 44100)
                     (zeros (Z.to_nat (pickFrameSize 44100) - length (@nil R))
                      ++ normalize []) with
         | Some (c :: mf) => (c :: mf) ++ zeros (length (c :: mf))
         | _ => zeros 26
         end)).
Proof.
  apply (short_window_single_frame Toy.meyda [] 44100 (mkOpts None None None)).
  rewrite pickFrameSize_44100. simpl. lia.
Defined.

End ShortWindowExamples.

(** ** The protocol of the worker *)
Section ProtocolFacts.

Import JS Exn Loops Worker Protocol Spec.
Local Open Scope string_scope.

Variable L : Library.

Lemma succeed_answered (st : State L) (i : String.string) (r : Result L) :
  answered i (snd (succeed st i r)).
Proof.
  unfold answered, succeed. simpl. split; [reflexivity|].
  left. repeat split. eexists. reflexivity.
Qed.

Lemma fail_answered (st : State L) (i msg : String.string) :
  answered i (snd (fail st i msg)).
Proof.
  unfold answered, fail. simpl. split; [reflexivity|].
  right. repeat split. eexists. split; [reflexivity|].
  destruct (String.eqb msg "") eqn:E; [discriminate|].
  now apply String.eqb_neq.
Qed.

Lemma afterTraining_answered (sc : Scaler) (i : String.string)
      (e : Effect (Model L)) :
  answered i (snd (afterTraining L sc i e)).
Proof.
  destruct e; [apply succeed_answered|apply fail_answered].
Qed.

(** Walk down the branches of a handler to its [post]. *)
Ltac to_post :=
  cbv zeta;
  repeat first
    [ apply succeed_answered
    | apply fail_answered
    | apply afterTraining_answered
    | match goal with
      | |- answered _ (snd (match ?x with _ => _ end)) => destruct x
      end ].

Lemma doTrain_answered (st : State L) (i : String.string) (p : Payload L) :
  answered i (snd (doTrain st i p)).
Proof. unfold doTrain. to_post. Qed.

Lemma onmessage_answered (st : State L) (e : InMsg L) :
  answered (id e) (snd (onmessage st e)).
Proof.
  unfold onmessage. cbv zeta.
  destruct (String.eqb (action e) "init"); [apply succeed_answered|].
  destruct (String.eqb (action e) "train"); [apply doTrain_answered|].
  destruct (String.eqb (action e) "predict"); [unfold doPredict; to_post|].
  destruct (String.eqb (action e) "export"); [unfold doExport; to_post|].
  destruct (String.eqb (action e) "import"); [unfold doImport; to_post|].
  destruct (String.eqb (action e) "reset"); [apply succeed_answered|].
  unfold answered. simpl. split; [reflexivity|].
  right. repeat split. eexists. split; [reflexivity|discriminate].
Qed.

(** X14. Every request is answered, in order, with its own id: a success
    carries a result and no error, a failure carries no result and an
    error message that is never empty (an empty one is replaced by
    "Error"), whatever the action, the payload or the library do. *)
Theorem every_request_answered (st : State L) (msgs : list (InMsg L)) :
  Forall2 (fun e r => answered (id e) r) msgs (snd (serve st msgs)) /\
  map (@rid L) (snd (serve st msgs)) = map (@id L) msgs.
Proof.
  assert (A : Forall2 (fun e r => answered (id e) r) msgs (snd (serve st msgs))).
  { revert st. induction msgs as [|e rest IH]; intros st; [constructor|].
    rewrite serve_cons. cbn [snd].
    constructor; [apply onmessage_answered|apply IH]. }
  split; [exact A|].
  induction A as [|e r es rs [H _] _ IH]; [reflexivity|].
  cbn [map]. now rewrite H, IH.
Qed.

(** X15. The stored model and scaler change only through a [train], or
    through an [import] or a [reset] that is answered with [ok: true]:
    [init], [predict], [export], unknown actions and a failed [import]
    leave both as they were. *)
Theorem state_changes_only_by_train_import_reset (st : State L) (e : InMsg L) :
  fst (onmessage st e) = st \/
  action e = "train" \/
  ok (snd (onmessage st e)) = true /\
  (action e = "import" \/ action e = "reset").
Proof.
  unfold onmessage. cbv zeta.
  destruct (String.eqb (action e) "init"); [now left|].
  destruct (String.eqb (action e) "train") eqn:Et;
    [right; left; now apply String.eqb_eq|].
  destruct (String.eqb (action e) "predict").
  { left. unfold doPredict.
    destruct (model st); [|reflexivity].
    destruct (px (payload e)); [|reflexivity].
    destruct (probs1D L _ _); reflexivity. }
  destruct (String.eqb (action e) "export").
  { left. unfold doExport.
    destruct (model st); [|reflexivity].
    destruct (modelToJSON L _); reflexivity. }
  destruct (String.eqb (action e) "import") eqn:Ei.
  { apply String.eqb_eq in Ei. unfold doImport.
    destruct (pModelJSON (payload e)); [|now left].
    destruct (negb (truthy L _)); [now left|].
    destruct (loadModelFromJSON L _); [|now left].
    right; right. split; [reflexivity|now left]. }
  destruct (String.eqb (action e) "reset") eqn:Er.
  { apply String.eqb_eq in Er. right; right. split; [reflexivity|now right]. }
  now left.
Qed.

(** X16. An [import] answered with [ok: true] has stored the model
    loaded from the payload's [modelJSON] and the payload's scaler in place
    of the stored one: importing without a scaler leaves the boundary with
    no scaler, whatever it held before. *)
Theorem import_replaces_model_and_scaler
        (st : State L) (e : InMsg L)
        (Hact : action e = "import")
        (Hok : ok (snd (onmessage st e)) = true) :
  scaler (fst (onmessage st e)) = pScaler (payload e) /\
  exists j m,
    pModelJSON (payload e) = Some j /\ truthy L j = true /\
    loadModelFromJSON L j = Returned m /\
    model (fst (onmessage st e)) = Some m /\
    result (snd (onmessage st e)) = Some (Imported L).
Proof.
  revert Hok. unfold onmessage. cbv zeta. rewrite Hact. cbn [String.eqb Ascii.eqb Bool.eqb andb].
  unfold doImport.
  destruct (pModelJSON (payload e)) as [j|]; [|discriminate].
  destruct (truthy L j) eqn:Et; cbn [negb]; [|discriminate].
  destruct (loadModelFromJSON L j) as [m|msg] eqn:El; [|discriminate].
  intros _. split; [reflexivity|].
  exists j, m. repeat split; assumption.
Qed.

Lemma empty_stays_empty (e : InMsg L) :
  action e <> "train" -> action e <> "import" ->
  fst (onmessage (initial L) e) = initial L /\
  (action e = "predict" ->
   snd (onmessage (initial L) e)
   = mkResponse (id e) false None (Some "Model not trained yet")) /\
  (action e = "export" ->
   snd (onmessage (initial L) e)
   = mkResponse (id e) false None (Some "No model to export")).
Proof.
  intros Ht Hi. unfold onmessage. cbv zeta.
  destruct (String.eqb (action e) "init") eqn:E0.
  { apply String.eqb_eq in E0. rewrite E0.
    repeat split; discriminate. }
  destruct (String.eqb (action e) "train") eqn:E1;
    [apply String.eqb_eq in E1; contradiction|].
  destruct (String.eqb (action e) "predict") eqn:E2.
  { apply String.eqb_eq in E2. rewrite E2.
    repeat split; discriminate. }
  destruct (String.eqb (action e) "export") eqn:E3.
  { apply String.eqb_eq in E3. rewrite E3.
    repeat split; discriminate. }
  destruct (String.eqb (action e) "import") eqn:E4;
    [apply String.eqb_eq in E4; contradiction|].
  apply String.eqb_neq in E2, E3.
  destruct (String.eqb (action e) "reset");
    (split; [reflexivity|split; intros; contradiction]).
Qed.

(** X17. Without a [train] or an [import] the boundary never acquires a
    model.  A [reset] empties it, whatever it held; from then on any
    sequence of other requests leaves it empty, every [predict] among them
    is refused with "Model not trained yet" and every [export] with "No
    model to export". *)
Theorem no_model_without_train_or_import
        (st : State L) (i : String.string) (msgs : list (InMsg L))
        (Hno : Forall (fun e => action e <> "train" /\ action e <> "import") msgs) :
  fst (onmessage st (resetRequest L i)) = initial L /\
  fst (serve (fst (onmessage st (resetRequest L i))) msgs) = initial L /\
  Forall2 (fun e r =>
             (action e = "predict" ->
              r = mkResponse (id e) false None (Some "Model not trained yet")) /\
             (action e = "export" ->
              r = mkResponse (id e) false None (Some "No model to export")))
          msgs (snd (serve (fst (onmessage st (resetRequest L i))) msgs)).
Proof.
  split; [reflexivity|].
  change (fst (onmessage st (resetRequest L i))) with (initial L).
  induction Hno as [|e rest [Ht Hi] _ [IH1 IH2]].
  - split; [reflexivity|constructor].
  - destruct (empty_stays_empty e Ht Hi) as (Hst & Hp & He).
    rewrite serve_cons, Hst. cbn [fst snd].
    split; [exact IH1|].
    constructor; [split; assumption|exact IH2].
Qed.

End ProtocolFacts.

Section ProtocolExamples.

Import JS Exn Loops Worker Protocol Spec.
Local Open Scope string_scope.

(** Importing the trained toy model without a scaler into a trained
    boundary. *)
Lemma import_replaces_model_and_scaler_witness :
  scaler (fst (onmessage Toy.trained
                         (importRequest Toy.lib "i" (Some [1%R; 0%R]) None)))
  = None /\
  scaler Toy.trained <> None.
Proof.
  split.
  - apply (proj1 (import_replaces_model_and_scaler Toy.lib Toy.trained
                    (importRequest Toy.lib "i" (Some [1%R; 0%R]) None)
                    eq_refl eq_refl)).
  - discriminate.
Defined.

(** A trained boundary is reset, then asked to predict and to export. *)
Lemma no_model_without_train_or_import_witness :
  snd (serve (fst (onmessage Toy.trained (resetRequest Toy.lib "r")))
             [predictRequest Toy.lib "p" [3%R]; exportRequest Toy.lib "e"])
  = [@mkResponse Toy.lib "p" false None (Some "Model not trained yet");
     @mkResponse Toy.lib "e" false None (Some "No model to export")] /\
  ok (snd (onmessage Toy.trained (predictRequest Toy.lib "p" [3%R]))) = true.
Proof.
  assert (Hno : Forall (fun e : InMsg Toy.lib =>
                          action e <> "train" /\ action e <> "import")
                       [predictRequest Toy.lib "p" [3%R];
                        exportRequest Toy.lib "e"])
    by (repeat constructor; discriminate).
  destruct (no_model_without_train_or_import Toy.lib Toy.trained "r" _ Hno)
    as (_ & _ & H).
  split; [|reflexivity].
  inversion H as [|e1 r1 l1 l1' [Hp _] H' E1 E2]; subst.
  inversion H' as [|e2 r2 l2 l2' [_ He] H'' E3 E4]; subst.
  inversion H''; subst.
  rewrite (Hp eq_refl), (He eq_refl). reflexivity.
Defined.

End ProtocolExamples.

(** ** Standardized features and the softmax of [probs1D] *)
Section StandardizeFacts.

Import JS Exn Loops Worker Spec.
Local Open Scope R_scope.












End StandardizeFacts.

(** ** The training request of the main thread, served by the worker *)
Section TrainFacts.

Import JS Exn Loops Worker Train Spec.
Local Open Scope string_scope.

Variable L : Library.

Lemma map_const (A B : Type) (b : B) (l : list A) :
  map (fun _ => b) l = repeat b (length l).
Proof. induction l as [|a l IH]; [reflexivity|]. simpl. now rewrite IH. Qed.

(** X20. When [trainModel] sends a request there are at least 8 samples,
    the worker does not reject it as missing [X] or [y], the labels reach
    the library unchanged as the rows [1, 0] (one per left sample) followed
    by the rows [0, 1] (one per right sample), the output dimension is 2,
    and the features are the samples standardized by the scaler fitted from
    them. *)
Theorem trainModel_trains_on_one_hot_rows
        (st : State L) (i : String.string)
        (leftSamples rightSamples : list (list R))
        (modelOptions : Options L) (e : InMsg L)
        (Hsent : trainModel L i leftSamples rightSamples modelOptions = Some e) :
  (8 <= length leftSamples + length rightSamples)%nat /\
  id e = i /\ action e = "train" /\
  missingInputs (payload e) = false /\
  exists sc,
    fitScaler (leftSamples ++ rightSamples) = Returned sc /\
    forall m,
      hasKernelELM L = true ->
      newKernelELM L 2 (Some modelOptions) = Returned m ->
      onmessage st e
      = afterTraining L sc i
          (fit L m (transformX (leftSamples ++ rightSamples) sc)
               (repeat [1%R; 0%R] (length leftSamples)
                ++ repeat [0%R; 1%R] (length rightSamples))).
Proof.
  unfold trainModel in Hsent. cbv zeta in Hsent.
  destruct (length (leftSamples ++ rightSamples) <? 8)%nat eqn:E8; [discriminate|].
  apply Nat.ltb_ge in E8. injection Hsent as <-.
  rewrite length_app in E8.
  split; [exact E8|]. split; [reflexivity|]. split; [reflexivity|].
  set (X := leftSamples ++ rightSamples).
  assert (LX : length X = (length leftSamples + length rightSamples)%nat)
    by (unfold X; apply length_app).
  assert (EX : (length X =? 0)%nat = false) by (apply Nat.eqb_neq; lia).
  assert (Ey : (length (map (fun _ : list R => oneHot 0 2) leftSamples
                        ++ map (fun _ : list R => oneHot 1 2) rightSamples)
                =? 0)%nat = false).
  { apply Nat.eqb_neq. rewrite length_app, !length_map. lia. }
  split.
  { unfold missingInputs. cbn [payload pX py labelCount]. fold X.
    now rewrite EX, Ey. }
  destruct (fitScaler X) as [sc|msg] eqn:Esc.
  2:{ destruct X; [simpl in LX; lia|discriminate]. }
  exists sc. split; [reflexivity|].
  intros m Hk Hnew.
  unfold onmessage. cbn [id action payload]. cbv zeta.
  cbn [String.eqb Ascii.eqb Bool.eqb andb].
  unfold doTrain. cbn [pX py pModelOptions labelCount]. fold X.
  rewrite EX, Ey. cbn [orb]. rewrite Esc. cbv zeta.
  assert (Ydim : match map (fun _ : list R => oneHot 0 2) leftSamples
                       ++ map (fun _ : list R => oneHot 1 2) rightSamples with
                 | r0 :: _ => length r0
                 | [] => 1%nat
                 end = 2%nat).
  { destruct leftSamples as [|a l]; [|reflexivity].
    destruct rightSamples as [|b r]; [simpl in E8; lia|reflexivity]. }
  rewrite Ydim, Hk, Hnew.
  unfold oneHotify. rewrite !map_const. reflexivity.
Qed.

End TrainFacts.

Section TrainExamples.

Import JS Exn Loops Worker Train Spec.
Local Open Scope string_scope.

(** Four left and four right samples, sent to the toy library. *)
Lemma trainModel_trains_on_one_hot_rows_witness :
  (8 <= length (repeat [1%R] 4) + length (repeat [3%R] 4))%nat /\
  ok (snd (onmessage (initial Toy.lib)
                     (@mkMsg Toy.lib "t" "train"
                        (mkPayload Toy.lib
                           (Some (repeat [1%R] 4 ++ repeat [3%R] 4))
                           (Some (Rows (repeat [1%R; 0%R] 4 ++ repeat [0%R; 1%R] 4)))
                           (Some tt) None None None)))) = true.
Proof.
  destruct (trainModel_trains_on_one_hot_rows Toy.lib (initial Toy.lib) "t"
              (repeat [1%R] 4) (repeat [3%R] 4) tt
              (@mkMsg Toy.lib "t" "train"
                 (mkPayload Toy.lib
                    (Some (repeat [1%R] 4 ++ repeat [3%R] 4))
                    (Some (Rows (repeat [1%R; 0%R] 4 ++ repeat [0%R; 1%R] 4)))
                    (Some tt) None None None))
              eq_refl)
    as (H8 & _ & _ & _ & sc & Hsc & Hfit).
  split; [exact H8|].
  rewrite (Hfit None eq_refl eq_refl). reflexivity.
Defined.

End TrainExamples.

(** ** The runner game *)
Section GameFacts.

Import JS Main Game Spec.
Local Open Scope string_scope.
Local Open Scope R_scope.

Lemma floor_bounds (x : R) : IZR (Math_floor x) <= x < IZR (Math_floor x) + 1.
Proof.
  unfold Math_floor. destruct (base_Int_part x) as [H1 H2]. lra.
Qed.

Lemma floor_range (x : R) (lo hi : Z) :
  IZR lo <= x < IZR hi -> (lo <= Math_floor x < hi)%Z.
Proof.
  intros [Hlo Hhi]. destruct (floor_bounds x) as [H1 H2].
  split.
  - assert (H : (lo < Math_floor x + 1)%Z)
      by (apply lt_IZR; rewrite plus_IZR; lra).
    lia.
  - apply lt_IZR. lra.
Qed.

Lemma shuffle_lanes (rnd : nat -> R) :
  unit_interval rnd ->
  NoDup (shuffle 2 rnd O [0; 1; 2]%Z) /\
  length (shuffle 2 rnd O [0; 1; 2]%Z) = 3%nat /\
  Forall (fun l => (0 <= l <= 2)%Z) (shuffle 2 rnd O [0; 1; 2]%Z).
Proof.
  intros Hr. cbn [shuffle].
  assert (H2 : (0 <= Math_floor (rnd O * (INR 2 + 1)) < 3)%Z).
  { apply floor_range. destruct (Hr O). simpl. lra. }
  assert (H1 : (0 <= Math_floor (rnd 1%nat * (INR 1 + 1)) < 2)%Z).
  { apply floor_range. destruct (Hr 1%nat). simpl. lra. }
  assert (C2 : exists a, (a < 3)%nat /\
                         Z.to_nat (Math_floor (rnd O * (INR 2 + 1))) = a)
    by (eexists; split; [|reflexivity]; lia).
  assert (C1 : exists b, (b < 2)%nat /\
                         Z.to_nat (Math_floor (rnd 1%nat * (INR 1 + 1))) = b)
    by (eexists; split; [|reflexivity]; lia).
  destruct C2 as (a & Ha & ->). destruct C1 as (b & Hb & ->).
  destruct a as [|[|[|a]]]; try lia;
    (destruct b as [|[|b]]; try lia);
    cbn; (split; [|split; [reflexivity|repeat constructor; lia]]);
    repeat constructor; cbn; intuition discriminate.
Qed.

Lemma nodup_firstn (l : list Z) (n : nat) : NoDup l -> NoDup (firstn n l).
Proof.
  revert n. induction l as [|a l IH]; intros n H.
  - rewrite firstn_nil. constructor.
  - destruct n as [|n]; [constructor|]. cbn [firstn].
    inversion H as [|? ? Hin Hnd]; subst.
    constructor; [|now apply IH].
    intros Hc. apply Hin. revert Hc. clear.
    revert n. induction l as [|b l IH]; intros n; [now rewrite firstn_nil|].
    destruct n as [|n]; [intros []|]. cbn [firstn]. intros [->|H].
    + now left.
    + right. now apply (IH n).
Qed.

Lemma forall_firstn (P : Z -> Prop) (l : list Z) (n : nat) :
  Forall P l -> Forall P (firstn n l).
Proof.
  intros H. apply Forall_forall. intros x Hx.
  rewrite Forall_forall in H. apply H.
  rewrite <- (firstn_skipn n l). apply in_or_app. now left.
Qed.

Lemma sampleLanes_range (rnd : nat -> R) (count : nat) :
  unit_interval rnd ->
  Forall (fun l => (0 <= l <= 2)%Z) (sampleLanes rnd count).
Proof.
  intros Hr. destruct (shuffle_lanes rnd Hr) as (_ & _ & Hin).
  unfold sampleLanes. cbv zeta. now apply forall_firstn.
Qed.

(** X21. [sampleLanes] draws lanes without repetition: for random numbers
    in [0, 1) the result holds [count] lanes (all three for a larger
    count), each one of 0, 1, 2, and no lane twice, so two obstacles
    spawned in one frame never share a lane. *)
Theorem sampleLanes_distinct (rnd : nat -> R) (count : nat)
        (Hrnd : unit_interval rnd) :
  length (sampleLanes rnd count) = Nat.min count 3 /\
  NoDup (sampleLanes rnd count) /\
  Forall (fun l => (0 <= l <= 2)%Z) (sampleLanes rnd count).
Proof.
  destruct (shuffle_lanes rnd Hrnd) as (Hnd & Hlen & Hin).
  unfold sampleLanes. cbv zeta.
  change (length [0%Z; 1%Z; 2%Z] - 1)%nat with 2%nat.
  split; [now rewrite length_firstn, Hlen|].
  split; [now apply nodup_firstn|now apply forall_firstn].
Qed.

(** Every draw one half. *)
Lemma sampleLanes_distinct_witness :
  length (sampleLanes (fun _ => 0.5) 2) = Nat.min 2 3 /\
  NoDup (sampleLanes (fun _ => 0.5) 2) /\
  Forall (fun l => (0 <= l <= 2)%Z) (sampleLanes (fun _ => 0.5) 2).
Proof.
  apply (sampleLanes_distinct (fun _ => 0.5) 2).
  intros k. lra.
Defined.

Lemma construct_inPlay (cw ch : R) : inPlay (construct cw ch).
Proof.
  unfold inPlay, construct. cbn.
  repeat split; try lia; [|constructor].
  exists 0%Z. split; [lia|lra].
Qed.

Lemma moved_standard (v : R) (obs : list Obstacle) (f : Obstacle -> bool) :
  Forall standard obs ->
  Forall standard
    (filter f (map (fun o => mkObstacle (lane o) (y o + v) (w o) (h o)) obs)).
Proof.
  intros H. apply Forall_forall. intros o Ho.
  apply filter_In in Ho. destruct Ho as [Ho _].
  apply in_map_iff in Ho. destruct Ho as (o' & <- & Hin).
  rewrite Forall_forall in H. exact (H o' Hin).
Qed.

Lemma spawned_standard (rnd : nat -> R) (count : nat) :
  unit_interval rnd ->
  Forall standard
         (map (fun lane => mkObstacle lane (-80) 70 70) (sampleLanes rnd count)).
Proof.
  intros Hr. pose proof (sampleLanes_range rnd count Hr) as H.
  apply Forall_map. eapply Forall_impl; [|exact H].
  intros l Hl. cbv beta in Hl. unfold standard. cbn.
  repeat split; try lia; reflexivity.
Qed.

Lemma speed_step (v : R) (b : bool) :
  speedLevel v -> speedLevel (if b && ltb v 10 then v + 0.5 else v).
Proof.
  intros (k & Hk & ->).
  destruct b; cbn [andb]; [|exists k; split; [lia|reflexivity]].
  destruct (ltb (3 + 0.5 * IZR k) 10) eqn:E; [|exists k; split; [lia|reflexivity]].
  apply ltb_true in E.
  assert (Hk14 : (k < 14)%Z).
  { apply lt_IZR. lra. }
  exists (k + 1)%Z. split; [lia|]. rewrite plus_IZR. lra.
Qed.

Lemma speedLevel_bounds (v : R) : speedLevel v -> 3 <= v <= 10.
Proof.
  intros (k & [Hk0 Hk1] & ->).
  apply IZR_le in Hk0. apply IZR_le in Hk1. lra.
Qed.

Lemma update_inPlay (rnd : nat -> R) (g : Game) :
  unit_interval rnd -> inPlay g -> inPlay (update rnd g).
Proof.
  intros Hr (Hlane & Hspawn & Hspeed & Hframe & Hscore & Hobs).
  unfold update. cbv zeta.
  set (spawn := (Z.rem (frame g + 1) (spawnEvery g) =? 0)%Z).
  set (speed' := if spawn && (Z.rem (frame g + 1) 600 =? 0)%Z && ltb (speed g) 10
                 then speed g + 0.5 else speed g).
  set (spawnEvery' := if spawn && (spawnEvery g >? 35)%Z
                      then (spawnEvery g - 1)%Z else spawnEvery g).
  set (obs := if spawn then _ else obstacles g).
  assert (Hspeed' : speedLevel speed') by (apply speed_step; exact Hspeed).
  assert (Hspawn' : (35 <= spawnEvery' <= 70)%Z).
  { unfold spawnEvery'. destruct spawn; cbn [andb]; [|lia].
    destruct (Z.gtb_spec (spawnEvery g) 35); lia. }
  assert (Hobs0 : Forall standard obs).
  { unfold obs. destruct spawn; [|exact Hobs].
    apply Forall_app. split; [exact Hobs|].
    apply spawned_standard. intros k. apply Hr. }
  assert (Hobs' : Forall standard
            (filter (fun o => ltb (y o) (height g + 100))
               (map (fun o => mkObstacle (lane o) (y o + speed') (w o) (h o)) obs)))
    by (apply moved_standard; exact Hobs0).
  assert (Hfloor : (0 <= Math_floor speed')%Z).
  { destruct (speedLevel_bounds _ Hspeed') as [H3 _].
    apply (floor_range speed' 0 11). simpl.
    destruct (speedLevel_bounds _ Hspeed'). lra. }
  destruct (existsb _ _); unfold inPlay; cbn;
    repeat split; try assumption; try lia.
Qed.

Lemma handle_inPlay (g : Game) (e : Event) :
  fair e -> inPlay g -> inPlay (handle g e).
Proof.
  intros Hf Hg.
  assert (Hset : forall b, inPlay (set_running g b)) by (intros b; exact Hg).
  assert (Hl : inPlay (moveLeft g)).
  { destruct Hg as (Hlane & Hrest). split; [|exact Hrest].
    unfold moveLeft. cbn. lia. }
  assert (Hr : inPlay (moveRight g)).
  { destruct Hg as (Hlane & Hrest). split; [|exact Hrest].
    unfold moveRight, lanes. cbn. lia. }
  assert (Hlr : inPlay (moveRight (moveLeft g))).
  { destruct Hl as (Hlane & Hrest). split; [|exact Hrest].
    unfold moveRight, lanes. cbn [playerLane set_playerLane] in *. lia. }
  destruct e as [label|key|rnd| | |rnd]; cbn [handle fair] in *.
  - unfold onVoiceCommand. destruct (negb (running g)); [exact Hg|].
    destruct label; assumption.
  - unfold onKeyDown. destruct (negb (running g)); [exact Hg|]. cbv zeta.
    destruct (String.eqb key "ArrowLeft"), (String.eqb key "ArrowRight"); assumption.
  - unfold start. destruct (running g); [exact Hg|].
    unfold loop. destruct (negb _); [apply Hset|].
    apply update_inPlay; [exact Hf|apply Hset].
  - apply Hset.
  - unfold reset, inPlay. cbn. repeat split; try lia; [|constructor].
    exists 0%Z. split; [lia|lra].
  - unfold loop. destruct (negb _); [exact Hg|].
    now apply update_inPlay.
Qed.

Lemma play_inPlay (events : list Event) :
  forall g, Forall fair events -> inPlay g -> inPlay (play g events).
Proof.
  induction events as [|e events IH]; intros g Hf Hg; [exact Hg|].
  inversion Hf as [|? ? He Hrest]; subst.
  cbn [play fold_left]. apply IH; [exact Hrest|].
  now apply handle_inPlay.
Qed.

Lemma update_canvas (rnd : nat -> R) (g : Game) :
  laneXs (update rnd g) = laneXs g /\ height (update rnd g) = height g /\
  width (update rnd g) = width g /\ playerLane (update rnd g) = playerLane g.
Proof.
  unfold update. cbv zeta. destruct (existsb _ _); cbn; repeat split.
Qed.

Lemma handle_canvas (g : Game) (e : Event) :
  laneXs (handle g e) = laneXs g /\ height (handle g e) = height g /\
  width (handle g e) = width g.
Proof.
  destruct e as [label|key|rnd| | |rnd]; cbn [handle].
  - unfold onVoiceCommand. destruct (negb _); [repeat split|].
    destruct label; repeat split.
  - unfold onKeyDown. destruct (negb _); [repeat split|]. cbv zeta.
    destruct (String.eqb key "ArrowLeft"), (String.eqb key "ArrowRight");
      repeat split.
  - unfold start. destruct (running g); [repeat split|].
    unfold loop. destruct (negb _); [repeat split|].
    destruct (update_canvas rnd (set_running g true)) as (A & B & C & _).
    now rewrite A, B, C.
  - repeat split.
  - repeat split.
  - unfold loop. destruct (negb _); [repeat split|].
    destruct (update_canvas rnd g) as (A & B & C & _). now rewrite A, B, C.
Qed.

Lemma play_canvas (events : list Event) :
  forall g, laneXs (play g events) = laneXs g /\
            height (play g events) = height g /\
            width (play g events) = width g.
Proof.
  induction events as [|e events IH]; intros g; [repeat split|].
  cbn [play fold_left]. destruct (IH (handle g e)) as (A & B & C).
  destruct (handle_canvas g e) as (A' & B' & C').
  unfold play in *. now rewrite A, B, C, A', B', C'.
Qed.

(** X22. Whatever happens to a game after its construction (voice
    commands, keys, start, pause, reset, animation frames, in any order,
    with random numbers in [0, 1)), the player stays in one of the lanes
    0, 1, 2, the spawn interval stays within 35 and 70 frames, the speed is
    one of 3, 3.5, ..., 10, the score is never negative, and every obstacle
    stands in one of the three lanes and measures 70 by 70. *)
Theorem game_stays_in_play (canvasWidth canvasHeight : R) (events : list Event)
        (Hfair : Forall fair events) :
  let g := play (construct canvasWidth canvasHeight) events in
  (0 <= playerLane g <= 2)%Z /\
  (35 <= spawnEvery g <= 70)%Z /\
  3 <= speed g <= 10 /\
  (exists k : Z, speed g = 3 + 0.5 * IZR k) /\
  (0 <= score g)%Z /\
  Forall (fun o => (0 <= lane o <= 2)%Z /\ w o = 70 /\ h o = 70) (obstacles g).
Proof.
  intros g.
  destruct (play_inPlay events (construct canvasWidth canvasHeight) Hfair
                        (construct_inPlay canvasWidth canvasHeight))
    as (Hlane & Hspawn & Hspeed & _ & Hscore & Hobs).
  fold g in Hlane, Hspawn, Hspeed, Hscore, Hobs.
  split; [exact Hlane|]. split; [exact Hspawn|].
  split; [now apply speedLevel_bounds|]. split.
  - destruct Hspeed as (k & _ & E). now exists k.
  - split; [exact Hscore|exact Hobs].
Qed.

(** Start, a voice command, a frame. *)
Lemma game_stays_in_play_witness :
  let g := play (construct 480 640)
                [Start (fun _ => 0.5); VoiceCommand LEFT;
                 AnimationFrame (fun _ => 0.5)] in
  (0 <= playerLane g <= 2)%Z /\
  (35 <= spawnEvery g <= 70)%Z /\
  3 <= speed g <= 10 /\
  (exists k : Z, speed g = 3 + 0.5 * IZR k) /\
  (0 <= score g)%Z /\
  Forall (fun o => (0 <= lane o <= 2)%Z /\ w o = 70 /\ h o = 70) (obstacles g).
Proof.
  apply (game_stays_in_play 480 640
           [Start (fun _ => 0.5); VoiceCommand LEFT; AnimationFrame (fun _ => 0.5)]).
  repeat first [apply Forall_cons | apply Forall_nil]; cbn [fair];
    try exact I; intros k; lra.
Defined.

Lemma lane_cases (l : Z) : (0 <= l <= 2)%Z -> l = 0%Z \/ l = 1%Z \/ l = 2%Z.
Proof. lia. Qed.

Lemma collides_iff (cw ch : R) (g : Game) (o : Obstacle) :
  180 <= cw ->
  laneXs g = laneXs (construct cw ch) ->
  (0 <= playerLane g <= 2)%Z ->
  standard o ->
  (collides g o = true <->
   lane o = playerLane g /\ playerY g - 70 < y o < playerY g + 70).
Proof.
  intros Hw Hxs Hp (Hl & Hwo & Hho).
  unfold collides. cbv zeta. rewrite Hxs, Hwo, Hho.
  unfold construct. cbn [laneXs].
  change (Z.to_nat lanes) with 3%nat.
  unfold lanes, laneW, playerW, playerH. cbn [seq map].
  set (P := (cw - 3 * 100) / (3 + 1)).
  assert (HP : -30 <= P) by (unfold P; lra).
  rewrite !andb_true_iff, !ltb_true, !gtb_true.
  destruct (lane_cases _ Hp) as [E|[E|E]];
    destruct (lane_cases _ Hl) as [F|[F|F]];
    rewrite E, F;
    change (Z.to_nat 0) with 0%nat;
    change (Z.to_nat 1) with 1%nat;
    change (Z.to_nat 2) with 2%nat;
    cbn [nth INR];
    (split;
     [ intros (((A & B) & C) & D);
       first [split; [reflexivity|lra] | exfalso; lra]
     | intros (A & B & C);
       first [discriminate A | repeat split; lra] ]).
Qed.

(** X23. On a canvas at least 180 wide, in every state a game can reach,
    an obstacle hits the player exactly when it stands in the player's lane
    and overlaps the player vertically, that is when its top edge is less
    than 70 above or below the player's: obstacles in other lanes never
    collide. *)
Theorem collision_is_same_lane_overlap
        (canvasWidth canvasHeight : R) (events : list Event) (o : Obstacle)
        (Hfair : Forall fair events)
        (Hwide : 180 <= canvasWidth)
        (Ho : In o (obstacles (play (construct canvasWidth canvasHeight) events))) :
  let g := play (construct canvasWidth canvasHeight) events in
  collides g o = true <->
  lane o = playerLane g /\ playerY g - 70 < y o < playerY g + 70.
Proof.
  intros g.
  destruct (play_inPlay events (construct canvasWidth canvasHeight) Hfair
                        (construct_inPlay canvasWidth canvasHeight))
    as (Hlane & _ & _ & _ & _ & Hobs).
  destruct (play_canvas events (construct canvasWidth canvasHeight)) as (Hxs & _).
  rewrite Forall_forall in Hobs.
  apply (collides_iff canvasWidth canvasHeight g o Hwide Hxs Hlane (Hobs o Ho)).
Qed.

Lemma frozen_step (g : Game) (e : Event) :
  running g = false -> restarts e = false -> handle g e = g.
Proof.
  intros Hr He. destruct e as [label|key|rnd| | |rnd]; try discriminate He;
    cbn [handle].
  - unfold onVoiceCommand. now rewrite Hr.
  - unfold onKeyDown. now rewrite Hr.
  - unfold pause, set_running. rewrite <- Hr. now destruct g.
  - unfold loop. now rewrite Hr.
Qed.

(** X24. A game that is not running (never started, paused, or over)
    ignores voice commands, keys and animation frames: until it is started
    or reset, nothing of it changes. *)
Theorem stopped_game_is_frozen (g : Game) (events : list Event)
        (Hstopped : running g = false)
        (Hno : forallb (fun e => negb (restarts e)) events = true) :
  play g events = g.
Proof.
  induction events as [|e events IH]; [reflexivity|].
  cbn [forallb] in Hno. apply andb_true_iff in Hno. destruct Hno as [He Hrest].
  apply negb_true_iff in He.
  cbn [play fold_left]. rewrite (frozen_step g e Hstopped He).
  exact (IH Hrest).
Qed.

(** Commands and frames sent to a game that was never started. *)
Lemma stopped_game_is_frozen_witness :
  play (construct 480 640)
       [VoiceCommand LEFT; KeyDown "ArrowRight"; AnimationFrame (fun _ => 0.5)]
  = construct 480 640.
Proof.
  apply (stopped_game_is_frozen (construct 480 640)); reflexivity.
Defined.

(** X25. A frame of a running game either ends it (a collision: the game
    stops and the score stays) or adds the whole part of the speed to the
    score, which is at least 3 and at most 10 points; in both cases the
    frame counter advances by one and the player's lane is kept. *)
Theorem frame_scores_or_ends
        (canvasWidth canvasHeight : R) (events : list Event) (rnd : nat -> R)
        (Hfair : Forall fair events)
        (Hrnd : unit_interval rnd)
        (Hrun : running (play (construct canvasWidth canvasHeight) events) = true) :
  let g := play (construct canvasWidth canvasHeight) events in
  let g' := handle g (AnimationFrame rnd) in
  frame g' = (frame g + 1)%Z /\
  playerLane g' = playerLane g /\
  (running g' = false /\ score g' = score g \/
   running g' = true /\ score g' = (score g + Math_floor (speed g'))%Z /\
   (score g + 3 <= score g' <= score g + 10)%Z).
Proof.
  intros g g'.
  pose proof (play_inPlay events (construct canvasWidth canvasHeight) Hfair
                          (construct_inPlay canvasWidth canvasHeight)) as Hg.
  fold g in Hg, Hrun.
  assert (Hg' : inPlay g').
  { apply handle_inPlay; [exact Hrnd|exact Hg]. }
  destruct Hg' as (_ & _ & Hspeed & _).
  apply speedLevel_bounds in Hspeed.
  assert (Hfl : (3 <= Math_floor (speed g') < 11)%Z)
    by (apply floor_range; simpl; lra).
  revert Hfl. unfold g'. cbn [handle]. unfold loop. rewrite Hrun. cbn [negb].
  unfold update. cbv zeta. destruct (existsb _ _); cbn; intros Hfl.
  - split; [reflexivity|]. split; [reflexivity|]. left. now split.
  - split; [reflexivity|]. split; [reflexivity|]. right.
    split; [exact Hrun|]. split; [reflexivity|lia].
Qed.

End GameFacts.

Section GameExamples.

Import JS Main Game Spec.
Local Open Scope R_scope.

Lemma quiet_update (r : nat -> R) (g : Game) :
  obstacles g = [] ->
  (Z.rem (frame g + 1) (spawnEvery g) =? 0)%Z = false ->
  update r g
  = mkGame (width g) (height g) (laneXs g) (playerLane g) [] (speed g)
           (spawnEvery g) (frame g + 1) (running g)
           (score g + Math_floor (speed g)).
Proof.
  intros Ho Hs. unfold update. cbv zeta. rewrite Hs, Ho. reflexivity.
Qed.

(** No obstacle appears before frame 70. *)
Lemma quiet_frames (r : nat -> R) (n : nat) :
  forall g,
    obstacles g = [] -> running g = true -> spawnEvery g = 70%Z ->
    (0 <= frame g)%Z -> (frame g + Z.of_nat n < 70)%Z ->
    let g' := play g (repeat (AnimationFrame r) n) in
    obstacles g' = [] /\ running g' = true /\ spawnEvery g' = 70%Z /\
    frame g' = (frame g + Z.of_nat n)%Z /\ speed g' = speed g /\
    height g' = height g.
Proof.
  induction n as [|n IH]; intros g Ho Hr Hs Hf Hn.
  - cbn. repeat split; try assumption. lia.
  - cbn [repeat play fold_left handle]. unfold loop. rewrite Hr. cbn [negb].
    assert (Hq : (Z.rem (frame g + 1) (spawnEvery g) =? 0)%Z = false).
    { rewrite Hs. apply Z.eqb_neq. rewrite Z.rem_small by lia. lia. }
    rewrite (quiet_update r g Ho Hq).
    set (g1 := mkGame _ _ _ _ _ _ _ _ _ _).
    destruct (IH g1) as (A & B & C & D & E & F);
      try (unfold g1; cbn; first [assumption | reflexivity | lia]).
    unfold play in *. repeat split; try assumption.
    rewrite D. unfold g1. cbn. lia.
Qed.

Lemma play_cons (g : Game) (e : Event) (events : list Event) :
  play g (e :: events) = play (handle g e) events.
Proof. reflexivity. Qed.

Lemma play_app (g : Game) (l1 l2 : list Event) :
  play g (l1 ++ l2) = play (play g l1) l2.
Proof. apply fold_left_app. Qed.

Lemma start_fresh (r : nat -> R) (cw ch : R) :
  handle (construct cw ch) (Start r)
  = mkGame cw ch (laneXs (construct cw ch)) 1 [] 3 70 1 true (0 + Math_floor 3).
Proof.
  cbn [handle]. unfold start. cbn [running construct]. unfold loop.
  cbn [running set_running negb].
  rewrite quiet_update by reflexivity. reflexivity.
Qed.

(** With every random number one half, the frame that follows 69 quiet
    ones spawns one obstacle in lane 0. *)
Lemma spawn_frame (g : Game) :
  obstacles g = [] -> running g = true -> spawnEvery g = 70%Z ->
  frame g = 69%Z -> speed g = 3 -> height g = 640 ->
  In (mkObstacle 0 (-80 + 3) 70 70)
     (obstacles (handle g (AnimationFrame (fun _ : nat => 0.5)))).
Proof.
  intros A B C D E F.
  cbn [handle]. unfold loop. rewrite B. cbn [negb].
  unfold update. cbv zeta. rewrite A, C, D, E, F.
  change (Z.rem (69 + 1) 70 =? 0)%Z with true.
  change (Z.rem (69 + 1) 600 =? 0)%Z with false.
  cbn [andb app].
  rewrite (proj2 (ltb_true 0.5 0.75)) by lra.
  unfold sampleLanes. cbn [length Nat.sub shuffle].
  rewrite (floor_between (0.5 * (INR 2 + 1)) 1) by (simpl; lra).
  rewrite (floor_between (0.5 * (INR 1 + 1)) 1) by (simpl; lra).
  change (firstn 1 (swap (swap [0; 1; 2]%Z 2 (Z.to_nat 1)) 1 (Z.to_nat 1)))
    with [0%Z].
  cbn [map lane y w h]. cbn [filter y].
  rewrite (proj2 (ltb_true (-80 + 3) (640 + 100))) by lra.
  destruct (existsb _ _); cbn [obstacles set_running]; left; reflexivity.
Qed.

Lemma first_obstacle :
  In (mkObstacle 0 (-80 + 3) 70 70)
     (obstacles (play (construct 480 640)
                      (Start (fun _ : nat => 0.5)
                       :: repeat (AnimationFrame (fun _ : nat => 0.5)) 68
                          ++ [AnimationFrame (fun _ : nat => 0.5)]))).
Proof.
  rewrite play_cons, start_fresh, play_app.
  set (g1 := mkGame _ _ _ _ _ _ _ _ _ _).
  assert (F0 : (0 <= frame g1)%Z) by (unfold g1; cbn; lia).
  assert (F1 : (frame g1 + Z.of_nat 68 < 70)%Z) by (unfold g1; cbn; lia).
  destruct (quiet_frames (fun _ : nat => 0.5) 68 g1 eq_refl eq_refl eq_refl F0 F1)
    as (A & B & C & D & E & F).
  rewrite play_cons. apply spawn_frame; assumption.
Qed.

(** The first obstacle of a game whose random numbers are all one half:
    it appears at frame 70 in lane 0, and the player stands in lane 1. *)
Lemma collision_is_same_lane_overlap_witness :
  let events := Start (fun _ : nat => 0.5)
                :: repeat (AnimationFrame (fun _ : nat => 0.5)) 68
                   ++ [AnimationFrame (fun _ : nat => 0.5)] in
  let g := play (construct 480 640) events in
  let o := mkObstacle 0 (-80 + 3) 70 70 in
  In o (obstacles g) /\
  (collides g o = true <->
   lane o = playerLane g /\ playerY g - 70 < y o < playerY g + 70).
Proof.
  cbv zeta. split; [exact first_obstacle|].
  apply (collision_is_same_lane_overlap 480 640
           (Start (fun _ : nat => 0.5)
            :: repeat (AnimationFrame (fun _ : nat => 0.5)) 68
               ++ [AnimationFrame (fun _ : nat => 0.5)])
           (mkObstacle 0 (-80 + 3) 70 70)).
  - constructor; [intros k; lra|].
    apply Forall_app. split.
    + apply Forall_forall. intros e He. apply repeat_spec in He. subst e.
      intros k. lra.
    + constructor; [intros k; lra|constructor].
  - lra.
  - exact first_obstacle.
Defined.

(** A started game, one frame later. *)
Lemma frame_scores_or_ends_witness :
  let g := play (construct 480 640) [Start (fun _ => 0.5)] in
  let g' := handle g (AnimationFrame (fun _ => 0.5)) in
  frame g' = (frame g + 1)%Z /\
  playerLane g' = playerLane g /\
  (running g' = false /\ score g' = score g \/
   running g' = true /\ score g' = (score g + Math_floor (speed g'))%Z /\
   (score g + 3 <= score g' <= score g + 10)%Z).
Proof.
  apply (frame_scores_or_ends 480 640 [Start (fun _ => 0.5)] (fun _ => 0.5)).
  - repeat first [apply Forall_cons | apply Forall_nil]; cbn [fair];
      intros k; lra.
  - intros k. lra.
  - reflexivity.
Defined.

End GameExamples.
